(** * The feature-implementation agent (implement_feature.ts)

    A shallow embedding of the tool set, the audit logger and the
    orchestration loop of [src/implement_feature.ts], and the properties
    the specification states about them.

    Conventions of the embedding.
    - A JavaScript string is a [string]; every character stands for one
      code unit below 256, so that no string of the model holds a lone
      surrogate.  On such text the [utf8] codec of [fs.readFileSync] and
      [fs.writeFileSync] loses nothing, and it is not modelled: the file
      store holds text.
    - The file store is keyed by files, not by spellings: a path is
      mapped to the file it names by [resolve], so that [a] and [./a]
      are one key.
    - Everything the process does not control (clock, JSON serialiser,
      environment variables, path resolution, permissions, interrupted
      writes, child processes, the model endpoint) is a field of the
      class [Runtime].
    - A child process can end with an exit code, end the agent itself,
      or never end: the three are told apart by [Ending].
    - Path resolution and permissions are taken not to change during a
      run, and the files of the audit logger to stay writable (laws of
      [Runtime]).
    - [console.log] is not modelled. *)

From Stdlib Require Import String Ascii List NArith Lia Bool DecimalString.
From stdpp Require Import gmap strings.

#[global] Arguments String.append !s1 s2 : simpl nomatch.

(** ** JavaScript strings *)

Module JS.

Definition LF : ascii := ascii_of_nat 10.
Definition nl : string := String LF EmptyString.
Definition dq : string := String (ascii_of_nat 34) EmptyString.

(** Decimal rendering of a number inside a template literal. *)
Definition show (n : nat) : string := NilEmpty.string_of_uint (Nat.to_uint n).

Fixpoint take (n : nat) (s : string) : string :=
  match n, s with
  | S n', String c s' => String c (take n' s')
  | _, _ => EmptyString
  end.

Fixpoint drop (n : nat) (s : string) : string :=
  match n, s with
  | S n', String _ s' => drop n' s'
  | _, _ => s
  end.

(** [s.indexOf(t)]: the least position at which [t] occurs in [s]. *)
Fixpoint indexOf (t s : string) : option nat :=
  if String.prefix t s then Some 0
  else match s with
       | EmptyString => None
       | String _ s' => option_map S (indexOf t s')
       end.

(** [s.includes(t)] *)
Definition includes (s t : string) : bool :=
  match indexOf t s with Some _ => true | None => false end.

(** [GetSubstitution] of ECMA-262 for a string pattern: there are no
    captures, so among the dollar forms only [$$], [$&], [$`] and [$']
    are replaced; [$n] and [$<] stay as they are written. *)
Fixpoint GetSubstitution (matched str : string) (position : nat)
    (template : string) : string :=
  match template with
  | EmptyString => EmptyString
  | String c1 rest1 =>
      match rest1 with
      | String c2 rest2 =>
          if Ascii.eqb c1 "$" then
            if Ascii.eqb c2 "$" then
              String "$" (GetSubstitution matched str position rest2)
            else if Ascii.eqb c2 "&" then
              matched +:+ GetSubstitution matched str position rest2
            else if Ascii.eqb c2 "`" then
              take position str +:+ GetSubstitution matched str position rest2
            else if Ascii.eqb c2 "'" then
              drop (position + String.length matched) str
                +:+ GetSubstitution matched str position rest2
            else String c1 (GetSubstitution matched str position rest1)
          else String c1 (GetSubstitution matched str position rest1)
      | EmptyString => String c1 EmptyString
      end
  end.

(** [s.replace(searchValue, replaceValue)] with two strings: the first
    occurrence only, the replacement read as a template. *)
Definition replace (s searchValue replaceValue : string) : string :=
  match indexOf searchValue s with
  | None => s
  | Some position =>
      take position s
        +:+ GetSubstitution searchValue s position replaceValue
        +:+ drop (position + String.length searchValue) s
  end.

(** White space and line terminators among the first 256 code units. *)
Definition is_space (c : ascii) : bool :=
  let n := nat_of_ascii c in
  (Nat.leb 9 n && Nat.leb n 13) || Nat.eqb n 32 || Nat.eqb n 160.

Fixpoint trimStart (s : string) : string :=
  match s with
  | String c s' => if is_space c then trimStart s' else s
  | EmptyString => EmptyString
  end.

Fixpoint trimEnd (s : string) : string :=
  match s with
  | EmptyString => EmptyString
  | String c s' =>
      match trimEnd s' with
      | EmptyString => if is_space c then EmptyString else String c EmptyString
      | r => String c r
      end
  end.

Definition trim (s : string) : string := trimStart (trimEnd s).

(** [s.split('\n')] *)
Fixpoint split_lines (s : string) : list string :=
  match s with
  | EmptyString => [EmptyString]
  | String c s' =>
      if Ascii.eqb c LF then EmptyString :: split_lines s'
      else match split_lines s' with
           | h :: t => String c h :: t
           | [] => [String c EmptyString]
           end
  end.

(** [Boolean(s)] for a string *)
Definition truthy (s : string) : bool :=
  match s with EmptyString => false | _ => true end.

(** [a.join('\n')] *)
Fixpoint join_lines (l : list string) : string :=
  match l with
  | [] => EmptyString
  | [x] => x
  | x :: t => x +:+ nl +:+ join_lines t
  end.

(** [Buffer.byteLength(s, 'utf8')]: a code unit below 128 is one byte,
    one from 128 to 255 is two. *)
Fixpoint byteLength (s : string) : nat :=
  match s with
  | EmptyString => 0
  | String c s' =>
      (if Nat.ltb (nat_of_ascii c) 128 then 1 else 2) + byteLength s'
  end.

(** The second characters of the dollar forms that [GetSubstitution]
    replaces. *)
Definition special (c : ascii) : bool :=
  Ascii.eqb c "$" || Ascii.eqb c "&" || Ascii.eqb c "`" || Ascii.eqb c "'".

(** A replacement text without any of the forms [$$], [$&], [$`] and
    [$']. *)
Fixpoint literal (template : string) : bool :=
  match template with
  | EmptyString => true
  | String c1 rest1 =>
      match rest1 with
      | String c2 _ => negb (Ascii.eqb c1 "$" && special c2) && literal rest1
      | EmptyString => true
      end
  end.

(** What [head -n] lets through: the first [n] lines of its input. *)
Fixpoint head_lines (s : string) (n : nat) : string :=
  match s with
  | EmptyString => EmptyString
  | String c s' =>
      match n with
      | 0 => EmptyString
      | S n' =>
          String c (head_lines s' (if Ascii.eqb c LF then n' else n))
      end
  end.

(** A value read off an untyped object: a string, or [undefined] when
    the property is missing. *)
Definition Arg := option string.

(** [`${v}`] *)
Definition str (v : Arg) : string :=
  match v with Some s => s | None => "undefined" end.

End JS.

(** ** Data model *)

#[warnings="-register-all"]
Inductive Json :=
| JNum (n : nat)
| JStr (s : string)
| JObj (fields : list (string * Json)).

Inductive LogType := T_system | T_tool | T_message | T_error.

Record LogEntry := {
  log_timestamp : string;
  log_type : LogType;
  log_content : string;
  log_metadata : option Json
}.

Definition is_error (l : LogEntry) : bool :=
  match log_type l with T_error => true | _ => false end.

(** A thrown value.  [e_stdout] and [e_stderr] are the extra properties
    that [child_process.exec] puts on its rejection. *)
Record JsError := {
  e_name : string;
  e_message : string;
  e_stack : string;
  e_stdout : option string;
  e_stderr : option string
}.

(** [`${error}`], that is [Error.prototype.toString] *)
Definition toString (e : JsError) : string :=
  match e_name e, e_message e with
  | EmptyString, m => m
  | n, EmptyString => n
  | n, m => n +:+ ": " +:+ m
  end.

(** A content block of a model response.  The input of a tool call is an
    object whose properties are strings. *)
Inductive ContentBlock :=
| Text (text : string)
| ToolUse (id name : string) (input : gmap string string)
| OtherBlock.

Record ToolResultBlockParam := {
  tool_use_id : string;
  tr_content : string
}.

Inductive MessageParam :=
| UserText (content : string)
| Assistant (content : list ContentBlock)
| UserResults (content : list ToolResultBlockParam).

Record Response := {
  content : list ContentBlock;
  stop_reason : string
}.

Record ToolDefinition := {
  td_name : string;
  td_description : string;
  td_required : list string
}.

Record Request := {
  req_system : string;
  req_messages : list MessageParam;
  req_tools : list ToolDefinition
}.

(** The object serialised into [claude-execution.log.json]. *)
Record Report := {
  rep_logs : list LogEntry;
  rep_totalIterations : option nat;
  rep_error : option string
}.

(** How a child process ends: with an exit code; by ending the agent
    itself, which then dies with a status (a command such as
    [kill -9 $PPID]); or not at all.  A number stands for the exit code
    of a process that exits. *)
Inductive Ending :=
| Exits (code : nat)
| KillsAgent (status : nat)
| NeverExits.

Coercion Exits : nat >-> Ending.

(** What a child process leaves behind. *)
Record Proc := {
  exit_code : Ending;
  p_stdout : string;
  p_stderr : string
}.

(** How the agent's process ends: with an exit status, or not at all.  A
    number stands for the status of a process that exits. *)
Inductive Fate :=
| Exited (status : nat)
| Stalled.

Coercion Exited : nat >-> Fate.

Definition LOG_FILE : string := "claude-execution.log".
Definition LOG_JSON : string := "claude-execution.log.json".
Definition ERROR_SUMMARY : string := "claude-error-summary.txt".

(** ** The runtime *)

Class Runtime := {
  (** [new Date().toISOString()] at the n-th call of [log] *)
  clock : nat -> string;
  (** [JSON.stringify(entry)] *)
  JSON_stringify : LogEntry -> string;
  (** [JSON.stringify(report, null, 2)] *)
  JSON_stringify_report : Report -> string;
  (** [process.env] *)
  getenv : string -> option string;
  (** [path.dirname] *)
  dirname : string -> string;
  (** the file that a path names, whatever its spelling: the key of the
      file store *)
  resolve : string -> string;
  (** whether [fs.mkdirSync(d, { recursive: true })] succeeds *)
  mkdir_ok : string -> bool;
  (** whether the file can be opened for writing (created or truncated);
      permissions do not change during a run *)
  writable : string -> bool;
  (** a write that fails after the file was opened and truncated: what
      it leaves of the data in the file *)
  torn : string -> string -> option string;
  (** the error of a failed system call on a path *)
  fs_error : string -> string -> JsError;
  (** the [TypeError] of an argument or receiver that is [undefined] or
      otherwise invalid *)
  type_error : string -> JsError;
  (** running a shell command: how it ends, its output, and the file
      store it leaves *)
  sh : string -> gmap string string -> Proc * gmap string string;
  (** [client.messages.create], at the n-th request: a response, or a
      rejection *)
  messages_create : nat -> Request -> JsError + Response;
  (** a [TypeError] of an argument carries no captured output *)
  type_error_stdout : forall what, e_stdout (type_error what) = None;
  type_error_stderr : forall what, e_stderr (type_error what) = None;
  (** the four paths that the program itself names are four files, each
      the key of itself *)
  resolve_log : resolve LOG_FILE = LOG_FILE;
  resolve_summary : resolve ERROR_SUMMARY = ERROR_SUMMARY;
  resolve_json : resolve LOG_JSON = LOG_JSON;
  resolve_claude_md : resolve "CLAUDE.md" = "CLAUDE.md";
  (** the three files of the audit logger can be written, and no write to
      them is interrupted *)
  log_writable : writable LOG_FILE = true;
  summary_writable : writable ERROR_SUMMARY = true;
  json_writable : writable LOG_JSON = true;
  log_whole : forall data, torn LOG_FILE data = None;
  summary_whole : forall data, torn ERROR_SUMMARY data = None;
  json_whole : forall data, torn LOG_JSON data = None
}.

(** ** State and control *)

(** The module-level array [logs], the file store, and the completion
    requests received by the endpoint so far (oldest first). *)
Record World := {
  files : gmap string string;
  logs : list LogEntry;
  requests : list Request
}.

Definition set_files (f : gmap string string) (w : World) : World :=
  {| files := f; logs := logs w; requests := requests w |}.

Definition push_log (e : LogEntry) (w : World) : World :=
  {| files := files w; logs := logs w ++ [e]; requests := requests w |}.

Definition push_request (r : Request) (w : World) : World :=
  {| files := files w; logs := logs w; requests := requests w ++ [r] |}.

(** How a computation ends: with a value; with a thrown error; with the
    end of the process, in [process.exit] or because a child process
    ended it; or never, waiting for a child process that does not end. *)
Inductive Result (A : Type) :=
| Ok (a : A)
| Throw (e : JsError)
| Exit (code : nat)
| Hang.

Arguments Ok {A} a.
Arguments Throw {A} e.
Arguments Exit {A} code.
Arguments Hang {A}.

Definition M (A : Type) : Type := World -> Result A * World.

Definition ret {A} (a : A) : M A := fun w => (Ok a, w).

Definition throw {A} (e : JsError) : M A := fun w => (Throw e, w).

Definition process_exit {A} (code : nat) : M A := fun w => (Exit code, w).

Definition bind {A B} (m : M A) (k : A -> M B) : M B :=
  fun w =>
    match m w with
    | (Ok a, w') => k a w'
    | (Throw e, w') => (Throw e, w')
    | (Exit c, w') => (Exit c, w')
    | (Hang, w') => (Hang, w')
    end.

(** [try { body } catch (error) { handler }] *)
Definition try_catch {A} (body : M A) (handler : JsError -> M A) : M A :=
  fun w =>
    match body w with
    | (Throw e, w') => handler e w'
    | r => r
    end.

Notation "x <- m ;; k" := (bind m (fun x => k))
  (at level 100, m at next level, right associativity).
Notation "m ;;; k" := (bind m (fun _ => k))
  (at level 100, right associativity).

Section Program.

Context `{rt : Runtime}.

(** ** File system and process primitives *)

Definition readFileSync (p : JS.Arg) : M string :=
  fun w =>
    match p with
    | None => (Throw (type_error "path"), w)
    | Some f =>
        match files w !! resolve f with
        | Some c => (Ok c, w)
        | None => (Throw (fs_error "open" f), w)
        end
    end.

(** [fs.writeFileSync(p, data, 'utf8')]: the file is opened and
    truncated, then written; a failure of the open leaves it as it was, a
    failure after the open leaves what was written until then. *)
Definition writeFileSync (p : JS.Arg) (data : string) : M unit :=
  fun w =>
    match p with
    | None => (Throw (type_error "path"), w)
    | Some f =>
        if writable (resolve f) then
          match torn (resolve f) data with
          | None => (Ok tt, set_files (<[resolve f := data]> (files w)) w)
          | Some remains =>
              (Throw (fs_error "write" f),
               set_files (<[resolve f := remains]> (files w)) w)
          end
        else (Throw (fs_error "open" f), w)
    end.

Definition appendFileSync (f : string) (data : string) : M unit :=
  fun w =>
    let old := default EmptyString (files w !! resolve f) in
    if writable (resolve f) then
      match torn (resolve f) data with
      | None => (Ok tt, set_files (<[resolve f := old +:+ data]> (files w)) w)
      | Some remains =>
          (Throw (fs_error "write" f),
           set_files (<[resolve f := old +:+ remains]> (files w)) w)
      end
    else (Throw (fs_error "open" f), w).

(** [fs.mkdirSync(path.dirname(p), { recursive: true })] *)
Definition mkdir_dirname (p : JS.Arg) : M unit :=
  fun w =>
    match p with
    | None => (Throw (type_error "path"), w)
    | Some f =>
        if mkdir_ok (dirname f) then (Ok tt, w)
        else (Throw (fs_error "mkdir" (dirname f)), w)
    end.

(** [content.length] *)
Definition length_of (v : JS.Arg) : M nat :=
  fun w =>
    match v with
    | Some s => (Ok (String.length s), w)
    | None => (Throw (type_error "length"), w)
    end.

(** [maxBuffer] counts bytes. *)
Definition exceeds (maxBuffer : N) (s : string) : bool :=
  (maxBuffer <? N.of_nat (JS.byteLength s))%N.

(** The rejection of [exec] when a stream overruns [maxBuffer]: it names
    the stream and carries what was captured, a prefix of each output.
    How long a prefix depends on how the output arrived; the model takes
    the first [maxBuffer] units, and the properties below use only that
    it is a prefix. *)
Definition overflow (stream : string) (maxBuffer : N) (p : Proc) : JsError :=
  {| e_name := "RangeError";
     e_message := stream +:+ " maxBuffer length exceeded";
     e_stack := EmptyString;
     e_stdout := Some (JS.take (N.to_nat maxBuffer) (p_stdout p));
     e_stderr := Some (JS.take (N.to_nat maxBuffer) (p_stderr p)) |}.

(** [execAsync(command, { maxBuffer })].  A command that is [undefined]
    or empty is refused before any shell is started.  Otherwise the
    command runs: it may end the agent or never end; when it exits, the
    promise resolves to the two outputs if the exit code is 0 and neither
    output is larger than [maxBuffer], and rejects otherwise, the error
    carrying what was captured.  When both outputs overrun the buffer,
    which of the two [exec] notices first depends on timing; the model
    takes the standard output, and the properties below allow both. *)
Definition execAsync (command : JS.Arg) (maxBuffer : N) : M (string * string) :=
  fun w =>
    match command with
    | None => (Throw (type_error "command"), w)
    | Some EmptyString => (Throw (type_error "file"), w)
    | Some cmd =>
        let (p, f') := sh cmd (files w) in
        let w' := set_files f' w in
        match exit_code p with
        | KillsAgent status => (Exit status, w')
        | NeverExits => (Hang, w')
        | Exits code =>
            if exceeds maxBuffer (p_stdout p) then
              (Throw (overflow "stdout" maxBuffer p), w')
            else if exceeds maxBuffer (p_stderr p) then
              (Throw (overflow "stderr" maxBuffer p), w')
            else if Nat.eqb code 0 then (Ok (p_stdout p, p_stderr p), w')
            else
              (Throw {| e_name := "Error";
                        e_message := "Command failed: " +:+ cmd +:+ JS.nl
                                     +:+ p_stderr p;
                        e_stack := EmptyString;
                        e_stdout := Some (p_stdout p);
                        e_stderr := Some (p_stderr p) |}, w')
        end
    end.

(** ** Logging system *)

Definition log (type : LogType) (content : string) (metadata : option Json)
  : M unit :=
  fun w =>
    let entry := {| log_timestamp := clock (length (logs w));
                    log_type := type;
                    log_content := content;
                    log_metadata := metadata |} in
    appendFileSync LOG_FILE (JSON_stringify entry +:+ JS.nl) (push_log entry w).

(** ** Tool implementations *)

Definition BASH_MAX_BUFFER : N := 10 * 1024 * 1024.
(** the default [maxBuffer] of [child_process.exec] *)
Definition DEFAULT_MAX_BUFFER : N := 1024 * 1024.

(** [{ k: v }] as metadata: a property that is [undefined] is left out
    by the serialiser. *)
Definition str_prop (k : string) (v : JS.Arg) : list (string * Json) :=
  match v with Some s => [(k, JStr s)] | None => [] end.

Definition read (filePath : JS.Arg) : M string :=
  try_catch
    (log T_tool ("Reading file: " +:+ JS.str filePath) None ;;;
     content <- readFileSync filePath ;;
     log T_tool ("Successfully read " +:+ JS.str filePath +:+ " ("
                 +:+ JS.show (String.length content) +:+ " chars)") None ;;;
     ret content)
    (fun error =>
       let msg := "Failed to read " +:+ JS.str filePath +:+ ": "
                  +:+ toString error in
       log T_error msg None ;;;
       ret ("Error: " +:+ msg)).

Definition write (filePath content : JS.Arg) : M string :=
  try_catch
    (contentLength <- length_of content ;;
     log T_tool ("Writing file: " +:+ JS.str filePath)
         (Some (JObj [("contentLength", JNum contentLength)])) ;;;
     mkdir_dirname filePath ;;;
     writeFileSync filePath (JS.str content) ;;;
     log T_tool ("Successfully wrote " +:+ JS.str filePath) None ;;;
     ret ("Successfully wrote " +:+ JS.str filePath))
    (fun error =>
       let msg := "Failed to write " +:+ JS.str filePath +:+ ": "
                  +:+ toString error in
       log T_error msg None ;;;
       ret ("Error: " +:+ msg)).

Definition edit (filePath oldText newText : JS.Arg) : M string :=
  try_catch
    (log T_tool ("Editing file: " +:+ JS.str filePath) None ;;;
     content <- readFileSync filePath ;;
     if negb (JS.includes content (JS.str oldText)) then
       let msg := "Old text not found in " +:+ JS.str filePath in
       log T_error msg None ;;;
       ret ("Error: " +:+ msg)
     else
       let newContent := JS.replace content (JS.str oldText) (JS.str newText) in
       writeFileSync filePath newContent ;;;
       log T_tool ("Successfully edited " +:+ JS.str filePath) None ;;;
       ret ("Successfully edited " +:+ JS.str filePath))
    (fun error =>
       let msg := "Failed to edit " +:+ JS.str filePath +:+ ": "
                  +:+ toString error in
       log T_error msg None ;;;
       ret ("Error: " +:+ msg)).

Definition bash (command : JS.Arg) : M string :=
  try_catch
    (log T_tool ("Executing bash: " +:+ JS.str command) None ;;;
     r <- execAsync command BASH_MAX_BUFFER ;;
     let output := fst r +:+ snd r in
     log T_tool "Bash completed"
         (Some (JObj (str_prop "command" command
                      ++ [("outputLength", JNum (String.length output))]))) ;;;
     ret (if JS.truthy output then output else "Command executed successfully"))
    (fun error =>
       let msg := "Bash command failed: " +:+ e_message error in
       log T_error msg (Some (JObj (str_prop "command" command))) ;;;
       ret ("Error: " +:+ msg +:+ JS.nl +:+ "Output: "
            +:+ default EmptyString (e_stdout error) +:+ JS.nl
            +:+ default EmptyString (e_stderr error))).

Definition glob_command (pattern : JS.Arg) : string :=
  "find . -path '" +:+ JS.str pattern +:+ "' -type f 2>/dev/null | head -100".

Definition glob (pattern : JS.Arg) : M string :=
  try_catch
    (log T_tool ("Glob pattern: " +:+ JS.str pattern) None ;;;
     r <- execAsync (Some (glob_command pattern)) DEFAULT_MAX_BUFFER ;;
     let files := List.filter JS.truthy (JS.split_lines (JS.trim (fst r))) in
     log T_tool ("Found " +:+ JS.show (length files) +:+ " files matching "
                 +:+ JS.str pattern) None ;;;
     ret (JS.join_lines files))
    (fun error =>
       let msg := "Glob failed: " +:+ toString error in
       log T_error msg None ;;;
       ret ("Error: " +:+ msg)).

(** ** Main implementation *)

Definition MAX_ITERATIONS : nat := 20.

Definition toolDefinitions : list ToolDefinition :=
  [ {| td_name := "read";
       td_description := "Read the contents of a file";
       td_required := ["path"] |};
    {| td_name := "write";
       td_description := "Write content to a file (creates directories if needed)";
       td_required := ["path"; "content"] |};
    {| td_name := "edit";
       td_description := "Edit a file by replacing old text with new text";
       td_required := ["path"; "old_text"; "new_text"] |};
    {| td_name := "bash";
       td_description := "Execute a bash command";
       td_required := ["command"] |};
    {| td_name := "glob";
       td_description := "Find files matching a glob pattern";
       td_required := ["pattern"] |} ].

Definition systemPrompt (claudeMd : string) : string :=
  JS.join_lines
    [ "You are an expert software engineer implementing features in this repository.";
      EmptyString;
      "You have access to these tools:";
      "- read(path): Read a file";
      "- write(path, content): Write/create a file";
      "- edit(path, old_text, new_text): Replace text in a file";
      "- bash(command): Run bash commands (use for git, npm, etc)";
      "- glob(pattern): Find files matching a pattern";
      EmptyString;
      (if JS.truthy claudeMd
       then JS.nl +:+ "## Project Instructions (CLAUDE.md)" +:+ JS.nl
            +:+ claudeMd +:+ JS.nl
       else EmptyString);
      EmptyString;
      "## Important Guidelines";
      "- ALWAYS read CLAUDE.md first if it exists";
      "- Follow ALL project conventions from CLAUDE.md";
      "- Assume environment variables are always available";
      "- Write production-ready, fully functional code";
      "- Match existing code style and patterns";
      "- Make focused, minimal changes";
      "- For UI: follow existing styling approach, ensure responsive design, add proper loading/error states";
      "- Subscribe.dev: ONLY use if explicitly mentioned in request (phrases: "
        +:+ JS.dq +:+ "with subscribe.dev" +:+ JS.dq +:+ ", "
        +:+ JS.dq +:+ "using subscribe.dev" +:+ JS.dq +:+ ", etc)";
      EmptyString;
      "You MUST use the provided tools to make changes. Do not just describe what to do - actually use the tools to implement the feature." ].

(** [process.env.X || fallback] *)
Definition env_or (x fallback : string) : string :=
  match getenv x with
  | Some v => if JS.truthy v then v else fallback
  | None => fallback
  end.

Definition userPrompt (FEATURE_REQUEST : string) : string :=
  JS.join_lines
    [ "Implement this feature: " +:+ FEATURE_REQUEST;
      EmptyString;
      "Repository: " +:+ env_or "GITHUB_REPOSITORY" "unknown";
      "Branch: " +:+ env_or "BRANCH_NAME" "unknown";
      EmptyString;
      "Steps:";
      "1. Read CLAUDE.md if you haven't already (use read tool)";
      "2. Use glob/read to understand the codebase structure";
      "3. Make the necessary changes using write/edit tools";
      "4. Update package.json if adding dependencies (use edit tool)";
      "5. Use bash tool for npm install if needed";
      EmptyString;
      "Start implementing now using the tools." ].

(** [client.messages.create(...)]: the endpoint receives the request and
    answers or fails. *)
Definition create (req : Request) : M Response :=
  fun w =>
    match messages_create (length (requests w)) req with
    | inr response => (Ok response, push_request req w)
    | inl e => (Throw e, push_request req w)
    end.

(** [block.input] as log metadata *)
Definition input_json (input : gmap string string) : Json :=
  JObj (map (fun kv => (fst kv, JStr (snd kv))) (map_to_list input)).

(** The [switch] on [block.name]. *)
Definition call_tool (name : string) (input : gmap string string) : M string :=
  if String.eqb name "read" then read (input !! "path")
  else if String.eqb name "write" then
    write (input !! "path") (input !! "content")
  else if String.eqb name "edit" then
    edit (input !! "path") (input !! "old_text") (input !! "new_text")
  else if String.eqb name "bash" then bash (input !! "command")
  else if String.eqb name "glob" then glob (input !! "pattern")
  else ret ("Unknown tool: " +:+ name).

(** One turn of [for (const block of response.content)]; the accumulator
    is [(hasToolUse, toolResults)]. *)
Definition process_block (block : ContentBlock)
    (acc : bool * list ToolResultBlockParam)
  : M (bool * list ToolResultBlockParam) :=
  match block with
  | Text text =>
      log T_message
          ("Claude: " +:+ JS.take 200 text
           +:+ (if Nat.ltb 200 (String.length text) then "..." else EmptyString))
          None ;;;
      ret acc
  | ToolUse id name input =>
      log T_tool ("Tool call: " +:+ name) (Some (input_json input)) ;;;
      result <- try_catch (call_tool name input)
                  (fun error =>
                     let result := "Tool execution error: " +:+ toString error in
                     log T_error result None ;;;
                     ret result) ;;
      ret (true, snd acc ++ [{| tool_use_id := id; tr_content := result |}])
  | OtherBlock => ret acc
  end.

Fixpoint process_content (blocks : list ContentBlock)
    (acc : bool * list ToolResultBlockParam)
  : M (bool * list ToolResultBlockParam) :=
  match blocks with
  | [] => ret acc
  | block :: rest =>
      acc' <- process_block block acc ;;
      process_content rest acc'
  end.

(** The variables of the conversation loop. *)
Record LoopState := {
  messages : list MessageParam;
  continueLoop : bool;
  iterationCount : nat
}.

(** The body of the [while]. *)
Definition loop_body (claudeMd : string) (st : LoopState) : M LoopState :=
  let iterationCount' := S (iterationCount st) in
  log T_system ("Iteration " +:+ JS.show iterationCount' +:+ "/"
                +:+ JS.show MAX_ITERATIONS) None ;;;
  response <- create {| req_system := systemPrompt claudeMd;
                        req_messages := messages st;
                        req_tools := toolDefinitions |} ;;
  log T_message ("Claude response (stop_reason: " +:+ stop_reason response
                 +:+ ")") None ;;;
  r <- process_content (content response) (false, []) ;;
  let hasToolUse := fst r in
  let toolResults := snd r in
  if String.eqb (stop_reason response) "end_turn" || negb hasToolUse then
    log T_system "Conversation ended" None ;;;
    ret {| messages := messages st;
           continueLoop := false;
           iterationCount := iterationCount' |}
  else
    let messages1 := messages st ++ [Assistant (content response)] in
    let messages2 :=
      if Nat.ltb 0 (length toolResults)
      then messages1 ++ [UserResults toolResults]
      else messages1 in
    ret {| messages := messages2;
           continueLoop := continueLoop st;
           iterationCount := iterationCount' |}.

Definition loop_condition (st : LoopState) : bool :=
  continueLoop st && Nat.ltb (iterationCount st) MAX_ITERATIONS.

(** [while (continueLoop && iterationCount < MAX_ITERATIONS) { ... }],
    by recursion on a number of turns still allowed. *)
Fixpoint while_loop (fuel : nat) (claudeMd : string) (st : LoopState)
  : M LoopState :=
  if loop_condition st then
    match fuel with
    | 0 => ret st
    | S fuel' =>
        st' <- loop_body claudeMd st ;;
        while_loop fuel' claudeMd st'
    end
  else ret st.

(** The loop as the program runs it.  The recursion is allowed one turn
    more than the condition of the loop can let through from the count
    of [st]: it is the condition, never the recursion, that ends the
    loop, and any larger allowance gives the same loop (see
    [while_loop_fuel] and [conversation_loop_unfold]). *)
Definition conversation_loop (claudeMd : string) (st : LoopState)
  : M LoopState :=
  while_loop (S (MAX_ITERATIONS - iterationCount st)) claudeMd st.

Definition get_logs : M (list LogEntry) := fun w => (Ok (logs w), w).

(** [try { claudeMd = await tools.read('CLAUDE.md'); log(...) }
     catch { log(...) }], where [claudeMd] starts as the empty string. *)
Definition read_claude_md : M string :=
  fun w =>
    match read (Some "CLAUDE.md") w with
    | (Ok claudeMd, w1) =>
        try_catch
          (log T_system "Found and read CLAUDE.md" None ;;; ret claudeMd)
          (fun _ => log T_system "No CLAUDE.md found" None ;;; ret claudeMd)
          w1
    | (Throw _, w1) =>
        (log T_system "No CLAUDE.md found" None ;;; ret EmptyString) w1
    | (Exit c, w1) => (Exit c, w1)
    | (Hang, w1) => (Hang, w1)
    end.

Definition success_report (logs : list LogEntry) (iterationCount : nat)
  : Report :=
  {| rep_logs := logs;
     rep_totalIterations := Some iterationCount;
     rep_error := None |}.

Definition failure_report (logs : list LogEntry) (error : JsError) : Report :=
  {| rep_logs := logs;
     rep_totalIterations := None;
     rep_error := Some (e_message error) |}.

Definition errorSummary (logs : list LogEntry) : string :=
  JS.join_lines (map log_content (List.filter is_error logs)).

Definition implementFeature : M nat :=
  try_catch
    (log T_system "Starting feature implementation" None ;;;
     let FEATURE_REQUEST := env_or "FEATURE_REQUEST" EmptyString in
     (if negb (JS.truthy FEATURE_REQUEST) then
        log T_error "No FEATURE_REQUEST provided" None ;;;
        process_exit 1
      else ret tt) ;;;
     log T_system ("Feature request: " +:+ FEATURE_REQUEST) None ;;;
     claudeMd <- read_claude_md ;;
     st <- conversation_loop claudeMd
             {| messages := [UserText (userPrompt FEATURE_REQUEST)];
                continueLoop := true;
                iterationCount := 0 |} ;;
     (if Nat.leb MAX_ITERATIONS (iterationCount st)
      then log T_system "Reached maximum iterations" None
      else ret tt) ;;;
     log T_system "Feature implementation completed" None ;;;
     logs <- get_logs ;;
     writeFileSync (Some LOG_JSON)
       (JSON_stringify_report (success_report logs (iterationCount st))) ;;;
     ret 0)
    (fun error =>
       log T_error ("Fatal error: " +:+ e_message error)
           (Some (JObj [("stack", JStr (e_stack error))])) ;;;
       logs <- get_logs ;;
       writeFileSync (Some ERROR_SUMMARY) (errorSummary logs) ;;;
       writeFileSync (Some LOG_JSON)
         (JSON_stringify_report (failure_report logs error)) ;;;
       ret 1).

(** [implementFeature().then(code => process.exit(code)).catch(...)]:
    the exit status of the process, if it ends. *)
Definition main (w : World) : Fate * World :=
  match implementFeature w with
  | (Ok code, w') => (Exited code, w')
  | (Throw _, w') => (Exited 1, w')
  | (Exit code, w') => (Exited code, w')
  | (Hang, w') => (Stalled, w')
  end.

End Program.

(** ** What a call of [log] leaves behind *)

Definition entry_at `{rt : Runtime} (type : LogType) (content : string)
    (metadata : option Json) (w : World) : LogEntry :=
  {| log_timestamp := clock (length (logs w));
     log_type := type;
     log_content := content;
     log_metadata := metadata |}.

Definition logged `{rt : Runtime} (type : LogType) (content : string)
    (metadata : option Json) (w : World) : World :=
  let entry := entry_at type content metadata w in
  {| files := <[LOG_FILE := default EmptyString (files w !! LOG_FILE)
                            +:+ JSON_stringify entry +:+ JS.nl]> (files w);
     logs := logs w ++ [entry];
     requests := requests w |}.

(** ** Transcripts *)

Definition tool_use_ids (blocks : list ContentBlock) : list string :=
  flat_map (fun b => match b with ToolUse id _ _ => [id] | _ => [] end) blocks.

Definition has_tool_use (blocks : list ContentBlock) : bool :=
  existsb (fun b => match b with ToolUse _ _ _ => true | _ => false end) blocks.

(** Every assistant turn is followed at once by a tool-result turn whose
    results carry, in order, the ids of the calls of that turn. *)
Fixpoint answered (ms : list MessageParam) : bool :=
  match ms with
  | [] => true
  | Assistant c :: rest =>
      match rest with
      | UserResults rs :: _ =>
          bool_decide (map tool_use_id rs = tool_use_ids c) && answered rest
      | _ => false
      end
  | _ :: rest => answered rest
  end.

Definition known_tool (name : string) : bool :=
  existsb (String.eqb name) ["read"; "write"; "edit"; "bash"; "glob"].

(** The shell commands that a tool call runs, and those of the calls of
    a response. *)
Definition tool_commands (name : string) (input : gmap string string)
  : list string :=
  if String.eqb name "bash" then
    match input !! "command" with Some cmd => [cmd] | None => [] end
  else if String.eqb name "glob" then [glob_command (input !! "pattern")]
  else [].

Definition commands_of (blocks : list ContentBlock) : list string :=
  flat_map (fun b => match b with
                     | ToolUse _ name input => tool_commands name input
                     | _ => []
                     end) blocks.

(** [rs] answers the calls of [blocks]: one result for each call, in the
    order of the calls, under the id of the call, holding a text that the
    [switch] returned for the name and the input of the call. *)
Inductive answers `{rt : Runtime}
  : list ContentBlock -> list ToolResultBlockParam -> Prop :=
| answers_nil : answers [] []
| answers_text text blocks rs :
    answers blocks rs -> answers (Text text :: blocks) rs
| answers_other blocks rs :
    answers blocks rs -> answers (OtherBlock :: blocks) rs
| answers_call id name input text v v' blocks rs :
    call_tool name input v = (Ok text, v') ->
    answers blocks rs ->
    answers (ToolUse id name input :: blocks)
            ({| tool_use_id := id; tr_content := text |} :: rs).

(** [rs] is what the dispatch of [blocks] returned, in some world. *)
Definition dispatched `{rt : Runtime} (blocks : list ContentBlock)
    (rs : list ToolResultBlockParam) : Prop :=
  exists v v',
    process_content blocks (false, []) v = (Ok (has_tool_use blocks, rs), v').

(** The number of positions at which [t] occurs in [s]. *)
Fixpoint occurrences (t s : string) : nat :=
  (if String.prefix t s then 1 else 0)
  + match s with
    | EmptyString => 0
    | String _ s' => occurrences t s'
    end.

(** The number of entries that [glob] keeps of an output, and of the
    output after its first line. *)
Definition kept (s : string) : nat :=
  length (List.filter JS.truthy (JS.split_lines s)).

Definition kept_after_first (s : string) : nat :=
  length (List.filter JS.truthy (tl (JS.split_lines s))).

(** No line feed in a string. *)
Fixpoint no_newline (s : string) : bool :=
  match s with
  | EmptyString => true
  | String c s' => negb (Ascii.eqb c JS.LF) && no_newline s'
  end.

(** ** Sample runtimes *)

Module Sample.

Definition plain_error (name msg : string) : JsError :=
  {| e_name := name; e_message := msg; e_stack := EmptyString;
     e_stdout := None; e_stderr := None |}.

Definition type_name (t : LogType) : string :=
  match t with
  | T_system => "system" | T_tool => "tool"
  | T_message => "message" | T_error => "error"
  end.

Definition stringify (e : LogEntry) : string :=
  "[" +:+ type_name (log_type e) +:+ "] " +:+ log_content e.

Definition stringify_report (r : Report) : string :=
  "{logs: " +:+ JS.show (length (rep_logs r))
  +:+ match rep_totalIterations r with
      | Some n => ", totalIterations: " +:+ JS.show n
      | None => EmptyString
      end
  +:+ match rep_error r with
      | Some m => ", error: " +:+ m
      | None => EmptyString
      end
  +:+ "}".

Definition env (x : string) : option string :=
  if String.eqb x "FEATURE_REQUEST" then Some "add a clock" else None.

(** Every file can be written but [/etc/hosts]. *)
Definition can_write (f : string) : bool := negb (String.eqb f "/etc/hosts").

(** A path that starts with [./] names the file of the rest of the
    path. *)
Definition normal (f : string) : string :=
  match f with
  | String "." (String "/" rest) => rest
  | _ => f
  end.

(** A write to [/dev/full] fails after the open and leaves nothing. *)
Definition interrupted (f data : string) : option string :=
  if String.eqb f "/dev/full" then Some EmptyString else None.

(** A runtime with a given environment, a given shell and a given
    endpoint. *)
Definition runtime_in (environment : string -> option string)
    (shell : string -> gmap string string -> Proc * gmap string string)
    (endpoint : nat -> Request -> JsError + Response) : Runtime :=
  {| clock := fun n => "T" +:+ JS.show n;
     JSON_stringify := stringify;
     JSON_stringify_report := stringify_report;
     getenv := environment;
     dirname := fun _ => ".";
     resolve := normal;
     mkdir_ok := fun _ => true;
     writable := can_write;
     torn := interrupted;
     fs_error := fun call f => plain_error "Error" (call +:+ " " +:+ f);
     type_error := fun what => plain_error "TypeError" what;
     sh := shell;
     messages_create := endpoint;
     type_error_stdout := fun _ => eq_refl;
     type_error_stderr := fun _ => eq_refl;
     resolve_log := eq_refl;
     resolve_summary := eq_refl;
     resolve_json := eq_refl;
     resolve_claude_md := eq_refl;
     log_writable := eq_refl;
     summary_writable := eq_refl;
     json_writable := eq_refl;
     log_whole := fun _ => eq_refl;
     summary_whole := fun _ => eq_refl;
     json_whole := fun _ => eq_refl |}.

Definition runtime := runtime_in env.

(** A shell in which every command succeeds without output. *)
Definition quiet_shell (cmd : string) (f : gmap string string)
  : Proc * gmap string string :=
  ({| exit_code := 0; p_stdout := EmptyString; p_stderr := EmptyString |}, f).

(** An endpoint that is down. *)
Definition down (n : nat) (req : Request) : JsError + Response :=
  inl (plain_error "Error" "503").

Definition offline : Runtime := runtime quiet_shell down.

(** An endpoint that first calls a tool it was never offered, then
    stops. *)
Definition confused (n : nat) (req : Request) : JsError + Response :=
  match n with
  | 0 => inr {| content := [Text "Deploying."; ToolUse "toolu_1" "deploy" ∅];
                stop_reason := "tool_use" |}
  | _ => inr {| content := [Text "Done."]; stop_reason := "end_turn" |}
  end.

Definition online : Runtime := runtime quiet_shell confused.

(** An endpoint that calls a tool it was never offered in a response
    that says [end_turn]. *)
Definition hasty (n : nat) (req : Request) : JsError + Response :=
  inr {| content := [ToolUse "toolu_1" "deploy" ∅];
         stop_reason := "end_turn" |}.

Definition rushed : Runtime := runtime quiet_shell hasty.

(** The pattern that closes the quote of [glob_command] early, and a
    shell in which the command so obtained prints what it prints in
    [sh]: [find] finds nothing, [seq 101] prints its 101 lines straight
    to the output, and only [echo] is piped through [head -100]. *)
Definition escaping_pattern : string := "' ; seq 101 ; echo '".

Definition escaped_output : string :=
  String.concat EmptyString (map (fun n => JS.show n +:+ JS.nl) (seq 1 101))
  +:+ " -type f" +:+ JS.nl.

Definition open_shell (cmd : string) (f : gmap string string)
  : Proc * gmap string string :=
  if String.eqb cmd
       "find . -path '' ; seq 101 ; echo '' -type f 2>/dev/null | head -100"
  then ({| exit_code := 0; p_stdout := escaped_output;
           p_stderr := EmptyString |}, f)
  else quiet_shell cmd f.

Definition injected : Runtime := runtime open_shell down.

(** An endpoint that asks for a listing on every turn and never stops. *)
Definition tireless (n : nat) (req : Request) : JsError + Response :=
  inr {| content := [ToolUse "toolu" "glob" {[ "pattern" := "*" ]}];
         stop_reason := "tool_use" |}.

Definition busy : Runtime := runtime quiet_shell tireless.

(** A shell in which every command lists two files, with a blank line
    between them. *)
Definition listing_shell (cmd : string) (f : gmap string string)
  : Proc * gmap string string :=
  ({| exit_code := 0;
      p_stdout := "./a" +:+ JS.nl +:+ JS.nl +:+ "./b" +:+ JS.nl;
      p_stderr := EmptyString |}, f).

Definition listed : Runtime := runtime listing_shell down.

(** A shell in which [kill -9 $PPID] ends the agent, which dies with the
    status 137, and [tail -f /dev/null] never ends. *)
Definition deadly_shell (cmd : string) (f : gmap string string)
  : Proc * gmap string string :=
  if String.eqb cmd "kill -9 $PPID" then
    ({| exit_code := KillsAgent 137; p_stdout := EmptyString;
        p_stderr := EmptyString |}, f)
  else if String.eqb cmd "tail -f /dev/null" then
    ({| exit_code := NeverExits; p_stdout := EmptyString;
        p_stderr := EmptyString |}, f)
  else quiet_shell cmd f.

(** An endpoint that asks for the command that ends the agent. *)
Definition reckless (n : nat) (req : Request) : JsError + Response :=
  inr {| content := [ToolUse "toolu_1" "bash"
                       {[ "command" := "kill -9 $PPID" ]}];
         stop_reason := "tool_use" |}.

Definition deadly : Runtime := runtime deadly_shell reckless.

(** An endpoint that asks for the same command in a response that says
    [end_turn]. *)
Definition parting (n : nat) (req : Request) : JsError + Response :=
  inr {| content := [ToolUse "toolu_1" "bash"
                       {[ "command" := "kill -9 $PPID" ]}];
         stop_reason := "end_turn" |}.

Definition doomed : Runtime := runtime deadly_shell parting.

(** A shell in which no command is found, and an endpoint that asks for
    a command first and stops when it is handed the result. *)
Definition failing_shell (cmd : string) (f : gmap string string)
  : Proc * gmap string string :=
  ({| exit_code := 127; p_stdout := EmptyString;
      p_stderr := "sh: 1: " +:+ cmd +:+ ": not found" +:+ JS.nl |}, f).

Definition insistent (n : nat) (req : Request) : JsError + Response :=
  match n with
  | 0 => inr {| content := [ToolUse "toolu_1" "bash"
                              {[ "command" := "nope" ]}];
                stop_reason := "tool_use" |}
  | _ => inr {| content := [Text "Done."]; stop_reason := "end_turn" |}
  end.

Definition failing : Runtime := runtime failing_shell insistent.

(** A runtime in which no environment variable is set. *)
Definition unset : Runtime := runtime_in (fun _ => None) quiet_shell down.

Definition empty_world : World :=
  {| files := ∅; logs := []; requests := [] |}.

Definition world_with (f v : string) : World :=
  {| files := {[ f := v ]}; logs := []; requests := [] |}.

End Sample.

(** ** How computations end *)

(** [r] is the end of a computation that a command of [C] has cut short:
    the command ended the agent, which died with its status, or it never
    ended and the agent waits for it. *)
Definition ended_by `{rt : Runtime} {A} (C : string -> Prop) (r : Result A)
  : Prop :=
  match r with
  | Exit status =>
      exists cmd f, C cmd /\ exit_code (fst (sh cmd f)) = KillsAgent status
  | Hang => exists cmd f, C cmd /\ exit_code (fst (sh cmd f)) = NeverExits
  | _ => False
  end.

(** Every command of [C] exits, in every file store. *)
Definition exit_all `{rt : Runtime} (C : string -> Prop) : Prop :=
  forall cmd f, C cmd -> exists code : nat, exit_code (fst (sh cmd f)) = code.

(** Every command exits. *)
Definition tame `{rt : Runtime} : Prop := exit_all (fun _ => True).

(** [m] sends nothing to the endpoint; it returns or throws, unless a
    command of [C] cuts it short. *)
Definition silent `{rt : Runtime} {A} (C : string -> Prop) (m : M A) : Prop :=
  forall w,
    requests (snd (m w)) = requests w
    /\ match fst (m w) with
       | Ok _ | Throw _ => True
       | r => ended_by C r
       end.

(** [m] sends nothing to the endpoint and throws nothing; it returns,
    unless a command of [C] cuts it short. *)
Definition settles `{rt : Runtime} {A} (C : string -> Prop) (m : M A) : Prop :=
  forall w,
    requests (snd (m w)) = requests w
    /\ match fst (m w) with
       | Ok _ => True
       | Throw _ => False
       | r => ended_by C r
       end.

(** [m] sends nothing to the endpoint and returns a value. *)
Definition returns {A} (m : M A) : Prop :=
  forall w, requests (snd (m w)) = requests w /\ exists a, fst (m w) = Ok a.

(** ** One turn of the loop, as a function of the response *)

Definition request_of `{rt : Runtime} (claudeMd : string) (st : LoopState)
  : Request :=
  {| req_system := systemPrompt claudeMd;
     req_messages := messages st;
     req_tools := toolDefinitions |}.

Definition stops (response : Response) : bool :=
  String.eqb (stop_reason response) "end_turn"
  || negb (has_tool_use (content response)).

Definition next_state (st : LoopState) (response : Response)
    (toolResults : list ToolResultBlockParam) : LoopState :=
  if stops response then
    {| messages := messages st;
       continueLoop := false;
       iterationCount := S (iterationCount st) |}
  else
    {| messages := messages st
                   ++ [Assistant (content response); UserResults toolResults];
       continueLoop := continueLoop st;
       iterationCount := S (iterationCount st) |}.

(** ** The requests of a run *)

(** The requests of a conversation whose first request is the n-th that
    the endpoint receives and carries the transcript [ms]: each carries
    the same system prompt and tools; a next request is sent only when
    the endpoint has answered the one before with a response that does
    not stop, and it carries the transcript of the one before followed by
    that response and by the results that the dispatch of its blocks
    returned. *)
Inductive conversation `{rt : Runtime} (claudeMd : string)
  : nat -> list MessageParam -> list Request -> Prop :=
| conversation_nil n ms : conversation claudeMd n ms []
| conversation_last n ms :
    conversation claudeMd n ms
      [{| req_system := systemPrompt claudeMd;
          req_messages := ms;
          req_tools := toolDefinitions |}]
| conversation_next n ms response rs rest :
    messages_create n {| req_system := systemPrompt claudeMd;
                         req_messages := ms;
                         req_tools := toolDefinitions |}
    = inr response ->
    stops response = false ->
    dispatched (content response) rs ->
    conversation claudeMd (S n)
      (ms ++ [Assistant (content response); UserResults rs]) rest ->
    conversation claudeMd n ms
      ({| req_system := systemPrompt claudeMd;
          req_messages := ms;
          req_tools := toolDefinitions |} :: rest).

(** The last of the requests [new], sent from the world [w], was
    rejected with the error [e]. *)
Definition rejected `{rt : Runtime} (w : World) (new : list Request)
    (e : JsError) : Prop :=
  exists sent req,
    new = sent ++ [req]
    /\ messages_create (length (requests w) + length sent) req = inl e.

(** The last of the requests [new], sent from the world [w], was
    answered, and a command of a call of the response cut the
    computation short. *)
Definition cut_short `{rt : Runtime} {A} (w : World) (new : list Request)
    (r : Result A) : Prop :=
  exists sent req response,
    new = sent ++ [req]
    /\ messages_create (length (requests w) + length sent) req = inr response
    /\ ended_by (fun cmd => In cmd (commands_of (content response))) r.

(** ** The ways a run ends *)

(** The entry that the fatal handler logs. *)
Definition fatal_entry (error : JsError) (l : LogEntry) : Prop :=
  log_type l = T_error
  /\ log_content l = "Fatal error: " +:+ e_message error.

(** No feature request: the process exits with 1 and no request was
    sent. *)
Definition ends_unconfigured `{rt : Runtime} (r : Result nat)
    (new : list Request) : Prop :=
  r = Exit 1 /\ env_or "FEATURE_REQUEST" EmptyString = EmptyString /\ new = [].

(** Normal completion: the snapshot holds every entry and the number of
    turns, which is the number of requests sent. *)
Definition ends_completed `{rt : Runtime} (r : Result nat) (w' : World)
    (new : list Request) : Prop :=
  r = Ok 0
  /\ files w' !! LOG_JSON
     = Some (JSON_stringify_report (success_report (logs w') (length new))).

(** Fatal failure: the error is the rejection of the last request, the
    summary holds the error entries, the snapshot every entry and the
    message of the error, and the last entry is the one of the fatal
    handler. *)
Definition ends_failed `{rt : Runtime} (r : Result nat) (w w' : World)
    (new : list Request) : Prop :=
  r = Ok 1
  /\ exists error,
       rejected w new error
       /\ files w' !! ERROR_SUMMARY = Some (errorSummary (logs w'))
       /\ files w' !! LOG_JSON
          = Some (JSON_stringify_report (failure_report (logs w') error))
       /\ exists before l, logs w' = before ++ [l] /\ fatal_entry error l.

(** ** Further properties of computations *)

(** [m] only appends to the array [logs]. *)
Definition appends {A} (m : M A) : Prop :=
  forall w, exists new, logs (snd (m w)) = logs w ++ new.

(** [m] leaves every file of [S] as it was. *)
Definition keeps {A} (S : string -> Prop) (m : M A) : Prop :=
  forall w g, S g -> files (snd (m w)) !! g = files w !! g.

(** The files that a file tool called on the path [p] may not touch: all
    but the log and the file that [p] names, under whatever spelling. *)
Definition beside `{rt : Runtime} (p : JS.Arg) (g : string) : Prop :=
  g <> LOG_FILE /\ forall f, p = Some f -> resolve f <> g.

(** The two entries of a tool call: one of kind tool before the work,
    then one of kind tool when the work succeeded, and one of kind error
    when it failed, the returned text being then [Error: ] followed by
    the content of that entry (and, for [bash], by the captured
    output). *)
Definition tool_trace (w w' : World) (succeeded : bool) (text : string)
  : Prop :=
  exists e1 e2,
    logs w' = logs w ++ [e1; e2]
    /\ log_type e1 = T_tool
    /\ if succeeded then log_type e2 = T_tool
       else log_type e2 = T_error
            /\ String.prefix ("Error: " +:+ log_content e2) text = true.

(** When the work of each tool succeeds. *)
Definition none {A} (o : option A) : bool :=
  match o with None => true | Some _ => false end.

Definition write_succeeds `{rt : Runtime} (f data : string) : bool :=
  writable (resolve f) && none (torn (resolve f) data).

Definition exec_succeeds (maxBuffer : N) (cmd : string) (p : Proc) : bool :=
  negb (String.eqb cmd EmptyString)
  && negb (exceeds maxBuffer (p_stdout p))
  && negb (exceeds maxBuffer (p_stderr p))
  && match exit_code p with Exits 0 => true | _ => false end.

(** * Properties *)

Example replace_first_only : JS.replace "abcabc" "bc" "X" = "aXabc".
Proof. reflexivity. Qed.

Example replace_two_dollars : JS.replace "price" "price" "$$5" = "$5".
Proof. reflexivity. Qed.

Example replace_match : JS.replace "xay" "a" "[$&]" = "x[a]y".
Proof. reflexivity. Qed.

Example replace_before_after : JS.replace "xay" "a" "$`$'" = "xxyy".
Proof. reflexivity. Qed.

Example replace_digit_kept : JS.replace "xay" "a" "$1" = "x$1y".
Proof. reflexivity. Qed.

Example replace_missing : JS.replace "xay" "b" "c" = "xay".
Proof. reflexivity. Qed.

Example literal_digit_and_brace :
  JS.literal "$1" = true /\ JS.literal "${x}" = true
  /\ JS.literal "cost: 5$" = true /\ JS.literal "$$" = false.
Proof. repeat split. Qed.

Example byte_length_of_e_acute :
  JS.byteLength (String (ascii_of_nat 233) "t" +:+ "e") = 4.
Proof. reflexivity. Qed.

Example trim_split_filter :
  List.filter JS.truthy
    (JS.split_lines (JS.trim ("./a" +:+ JS.nl +:+ "./b" +:+ JS.nl)))
  = ["./a"; "./b"].
Proof. reflexivity. Qed.

Example split_of_empty : JS.split_lines EmptyString = [EmptyString].
Proof. reflexivity. Qed.

Example head_two_lines :
  JS.head_lines ("a" +:+ JS.nl +:+ "b" +:+ JS.nl +:+ "c" +:+ JS.nl) 2
  = "a" +:+ JS.nl +:+ "b" +:+ JS.nl.
Proof. reflexivity. Qed.

Section Logger.

Context `{rt : Runtime}.

Lemma log_ok type content metadata w :
  log type content metadata w = (Ok tt, logged type content metadata w).
Proof.
  unfold log, appendFileSync.
  rewrite resolve_log, log_writable, log_whole. reflexivity.
Qed.

Lemma bind_log {B} type content metadata (k : unit -> M B) w :
  bind (log type content metadata) k w
  = k tt (logged type content metadata w).
Proof. unfold bind. rewrite log_ok. reflexivity. Qed.

Lemma bind_ok {A B} (m : M A) (k : A -> M B) w a w1 :
  m w = (Ok a, w1) -> bind m k w = k a w1.
Proof. intros E. unfold bind. rewrite E. reflexivity. Qed.

Lemma bind_throw {A B} (m : M A) (k : A -> M B) w e w1 :
  m w = (Throw e, w1) -> bind m k w = (Throw e, w1).
Proof. intros E. unfold bind. rewrite E. reflexivity. Qed.

Lemma bind_exit {A B} (m : M A) (k : A -> M B) w c w1 :
  m w = (Exit c, w1) -> bind m k w = (Exit c, w1).
Proof. intros E. unfold bind. rewrite E. reflexivity. Qed.

Lemma bind_hang {A B} (m : M A) (k : A -> M B) w w1 :
  m w = (Hang, w1) -> bind m k w = (Hang, w1).
Proof. intros E. unfold bind. rewrite E. reflexivity. Qed.

Lemma try_ok {A} (body : M A) handler w a w1 :
  body w = (Ok a, w1) -> try_catch body handler w = (Ok a, w1).
Proof. intros E. unfold try_catch. rewrite E. reflexivity. Qed.

Lemma try_throw {A} (body : M A) handler w e w1 :
  body w = (Throw e, w1) -> try_catch body handler w = handler e w1.
Proof. intros E. unfold try_catch. rewrite E. reflexivity. Qed.

Lemma try_exit {A} (body : M A) handler w c w1 :
  body w = (Exit c, w1) -> try_catch body handler w = (Exit c, w1).
Proof. intros E. unfold try_catch. rewrite E. reflexivity. Qed.

Lemma try_hang {A} (body : M A) handler w w1 :
  body w = (Hang, w1) -> try_catch body handler w = (Hang, w1).
Proof. intros E. unfold try_catch. rewrite E. reflexivity. Qed.

(** A call of [log] appends exactly one entry. *)
Lemma logged_logs type content metadata w :
  logs (logged type content metadata w)
  = logs w ++ [entry_at type content metadata w].
Proof. reflexivity. Qed.

Lemma logged_files_other type content metadata w f :
  f <> LOG_FILE ->
  files (logged type content metadata w) !! f = files w !! f.
Proof. intros Hne. simpl. apply lookup_insert_ne. congruence. Qed.

End Logger.

Global Opaque log.

(** ** A small calculus of [silent], [settles] and [returns] *)

Section Calculus.

Context `{rt : Runtime}.

Lemma ended_by_mono {A} (C C' : string -> Prop) (r : Result A) :
  (forall cmd, C cmd -> C' cmd) -> ended_by C r -> ended_by C' r.
Proof.
  intros HC. destruct r as [a|e|c|]; simpl; auto.
  - intros (cmd & f & H1 & H2). eauto.
  - intros (cmd & f & H1 & H2). eauto.
Qed.

(** Commands that exit cut nothing short. *)
Lemma ended_by_exit_all {A} (C : string -> Prop) (r : Result A) :
  exit_all C -> ended_by C r -> False.
Proof.
  intros HC. destruct r as [a|e|c|]; simpl; auto.
  - intros (cmd & f & H1 & H2). destruct (HC cmd f H1) as [code Hc].
    rewrite Hc in H2. discriminate.
  - intros (cmd & f & H1 & H2). destruct (HC cmd f H1) as [code Hc].
    rewrite Hc in H2. discriminate.
Qed.

Lemma exit_all_mono (C C' : string -> Prop) :
  (forall cmd, C cmd -> C' cmd) -> exit_all C' -> exit_all C.
Proof. intros HC H cmd f Hc. apply H, HC, Hc. Qed.

Lemma silent_mono {A} (C C' : string -> Prop) (m : M A) :
  (forall cmd, C cmd -> C' cmd) -> silent C m -> silent C' m.
Proof.
  intros HC H w. destruct (H w) as [Hr Hx]. split; [exact Hr|].
  destruct (fst (m w)); auto; exact (ended_by_mono _ _ _ HC Hx).
Qed.

Lemma settles_mono {A} (C C' : string -> Prop) (m : M A) :
  (forall cmd, C cmd -> C' cmd) -> settles C m -> settles C' m.
Proof.
  intros HC H w. destruct (H w) as [Hr Hx]. split; [exact Hr|].
  destruct (fst (m w)); auto; exact (ended_by_mono _ _ _ HC Hx).
Qed.

Lemma settles_silent {A} C (m : M A) : settles C m -> silent C m.
Proof.
  intros H w. destruct (H w) as [Hr Hx]. split; [exact Hr|].
  destruct (fst (m w)); auto.
Qed.

(** Without a command there is nothing to wait for. *)
Lemma settles_returns {A} (m : M A) : settles (fun _ => False) m -> returns m.
Proof.
  intros H w. destruct (H w) as [Hr Hx]. split; [exact Hr|].
  destruct (fst (m w)) as [a|e|c|]; simpl in Hx.
  - eauto.
  - contradiction.
  - destruct Hx as (cmd & f & [] & _).
  - destruct Hx as (cmd & f & [] & _).
Qed.

Lemma returns_settles {A} C (m : M A) : returns m -> settles C m.
Proof.
  intros H w. destruct (H w) as [Hr [a Ha]]. split; [exact Hr|].
  rewrite Ha. exact I.
Qed.

Lemma settles_ret {A} C (a : A) : settles C (ret a).
Proof. intros w. simpl. auto. Qed.

Lemma silent_throw {A} C e : silent C (@throw A e).
Proof. intros w. simpl. auto. Qed.

Lemma settles_log C type content metadata :
  settles C (log type content metadata).
Proof. intros w. rewrite log_ok. simpl. auto. Qed.

Lemma silent_bind {A B} C (m : M A) (k : A -> M B) :
  silent C m -> (forall a, silent C (k a)) -> silent C (bind m k).
Proof.
  intros Hm Hk w. unfold bind. specialize (Hm w).
  destruct (m w) as [[a|e|c|] w1]; simpl in *.
  - destruct Hm as [Hr _]. destruct (Hk a w1) as [Hr1 Hx]. rewrite Hr1, Hr. auto.
  - exact Hm.
  - exact Hm.
  - exact Hm.
Qed.

Lemma settles_bind {A B} C (m : M A) (k : A -> M B) :
  settles C m -> (forall a, settles C (k a)) -> settles C (bind m k).
Proof.
  intros Hm Hk w. unfold bind. specialize (Hm w).
  destruct (m w) as [[a|e|c|] w1]; simpl in *.
  - destruct Hm as [Hr _]. destruct (Hk a w1) as [Hr1 Hx]. rewrite Hr1, Hr. auto.
  - exact Hm.
  - exact Hm.
  - exact Hm.
Qed.

Lemma settles_try_catch {A} C (body : M A) (handler : JsError -> M A) :
  silent C body -> (forall e, settles C (handler e)) ->
  settles C (try_catch body handler).
Proof.
  intros Hb Hh w. unfold try_catch. specialize (Hb w).
  destruct (body w) as [[a|e|c|] w1]; simpl in *.
  - exact Hb.
  - destruct Hb as [Hr _]. destruct (Hh e w1) as [Hr1 Hx]. rewrite Hr1, Hr. auto.
  - exact Hb.
  - exact Hb.
Qed.

Lemma silent_if {A} C (b : bool) (m1 m2 : M A) :
  silent C m1 -> silent C m2 -> silent C (if b then m1 else m2).
Proof. destruct b; auto. Qed.

Lemma settles_if {A} C (b : bool) (m1 m2 : M A) :
  settles C m1 -> settles C m2 -> settles C (if b then m1 else m2).
Proof. destruct b; auto. Qed.

Lemma silent_readFileSync C p : silent C (readFileSync p).
Proof.
  intros w. unfold readFileSync. destruct p as [f|]; simpl; auto.
  destruct (files w !! resolve f); simpl; auto.
Qed.

Lemma silent_writeFileSync C p data : silent C (writeFileSync p data).
Proof.
  intros w. unfold writeFileSync. destruct p as [f|]; simpl; auto.
  destruct (writable (resolve f)); simpl; auto.
  destruct (torn (resolve f) data); simpl; auto.
Qed.

Lemma silent_mkdir_dirname C p : silent C (mkdir_dirname p).
Proof.
  intros w. unfold mkdir_dirname. destruct p as [f|]; simpl; auto.
  destruct (mkdir_ok (dirname f)); simpl; auto.
Qed.

Lemma silent_length_of C v : silent C (length_of v).
Proof. intros w. unfold length_of. destruct v; simpl; auto. Qed.

(** [execAsync] can be cut short by its own command only. *)
Lemma silent_execAsync command maxBuffer :
  silent (fun cmd => command = Some cmd) (execAsync command maxBuffer).
Proof.
  intros w. unfold execAsync. destruct command as [cmd|]; simpl; auto.
  destruct cmd as [|c cmd']; simpl; auto.
  destruct (sh (String c cmd') (files w)) as [p f'] eqn:E.
  assert (Hp : exit_code (fst (sh (String c cmd') (files w))) = exit_code p)
    by (rewrite E; reflexivity).
  destruct (exit_code p) as [code|status|]; simpl.
  - destruct (exceeds maxBuffer (p_stdout p)); simpl; auto.
    destruct (exceeds maxBuffer (p_stderr p)); simpl; auto.
    destruct (Nat.eqb code 0); simpl; auto.
  - split; [reflexivity|]. eauto.
  - split; [reflexivity|]. eauto.
Qed.

End Calculus.

Create HintDb agent.

#[export] Hint Resolve settles_ret settles_log settles_bind settles_try_catch
  settles_if silent_bind silent_if silent_throw silent_readFileSync
  silent_writeFileSync silent_mkdir_dirname silent_length_of
  silent_execAsync : agent.
#[export] Hint Extern 5 (silent _ _) => apply settles_silent : agent.

Section ToolsReturn.

Context `{rt : Runtime}.

Lemma settles_read C p : settles C (read p).
Proof. unfold read. auto 20 with agent. Qed.

Lemma settles_write C p c : settles C (write p c).
Proof. unfold write. auto 20 with agent. Qed.

Lemma settles_edit C p o n : settles C (edit p o n).
Proof. unfold edit. auto 20 with agent. Qed.

Lemma settles_bash c : settles (fun cmd => c = Some cmd) (bash c).
Proof. unfold bash. auto 20 with agent. Qed.

Lemma settles_glob p :
  settles (fun cmd => Some (glob_command p) = Some cmd) (glob p).
Proof. unfold glob. auto 20 with agent. Qed.

Lemma returns_read p : returns (read p).
Proof. apply settles_returns, settles_read. Qed.

Lemma returns_write p c : returns (write p c).
Proof. apply settles_returns, settles_write. Qed.

Lemma returns_edit p o n : returns (edit p o n).
Proof. apply settles_returns, settles_edit. Qed.

(** The [switch] can be cut short only by the command of the call. *)
Lemma settles_call_tool name input :
  settles (fun cmd => In cmd (tool_commands name input))
          (call_tool name input).
Proof.
  unfold call_tool, tool_commands.
  destruct (String.eqb name "read") eqn:E1.
  { apply settles_read. }
  destruct (String.eqb name "write") eqn:E2.
  { apply settles_write. }
  destruct (String.eqb name "edit") eqn:E3.
  { apply settles_edit. }
  destruct (String.eqb name "bash") eqn:E4.
  { eapply settles_mono; [|apply settles_bash].
    intros cmd Hc. cbv beta in Hc. rewrite Hc. left. reflexivity. }
  destruct (String.eqb name "glob") eqn:E5.
  { eapply settles_mono; [|apply settles_glob].
    intros cmd Hc. cbv beta in Hc. injection Hc as <-. left. reflexivity. }
  apply settles_ret.
Qed.

End ToolsReturn.

(** ** Dispatching the blocks of one response *)

Section Dispatch.

Context `{rt : Runtime}.

Lemma tool_use_ids_app a b :
  tool_use_ids (a ++ b) = tool_use_ids a ++ tool_use_ids b.
Proof. unfold tool_use_ids. apply flat_map_app. Qed.

Lemma commands_of_app a b :
  commands_of (a ++ b) = commands_of a ++ commands_of b.
Proof. unfold commands_of. apply flat_map_app. Qed.

Lemma has_tool_use_ids blocks :
  has_tool_use blocks = true -> tool_use_ids blocks <> [].
Proof.
  induction blocks as [|b rest IH]; simpl; [discriminate|].
  destruct b; simpl; auto; discriminate.
Qed.

Lemma In_has_tool_use id name input blocks :
  In (ToolUse id name input) blocks -> has_tool_use blocks = true.
Proof.
  intros H. unfold has_tool_use. apply existsb_exists.
  exists (ToolUse id name input). auto.
Qed.

(** Results that answer the calls carry their ids, in order. *)
Lemma answers_ids blocks rs :
  answers blocks rs -> map tool_use_id rs = tool_use_ids blocks.
Proof. induction 1; simpl; congruence. Qed.

Lemma answers_app blocks1 rs1 :
  answers blocks1 rs1 ->
  forall blocks2 rs2, answers blocks2 rs2 ->
  answers (blocks1 ++ blocks2) (rs1 ++ rs2).
Proof.
  induction 1; intros blocks2 rs2 H2; simpl; auto.
  - apply answers_text. auto.
  - apply answers_other. auto.
  - eapply answers_call; eauto.
Qed.

(** Every call has its result, which holds what the tool returned. *)
Lemma answers_In blocks rs :
  answers blocks rs ->
  forall id name input,
    In (ToolUse id name input) blocks ->
    exists text v v',
      call_tool name input v = (Ok text, v')
      /\ In {| tool_use_id := id; tr_content := text |} rs.
Proof.
  induction 1 as [|text blocks rs H IH|blocks rs H IH
                  |id0 name0 input0 text0 v v' blocks rs Hc H IH];
    intros id name input Hin.
  - destruct Hin.
  - destruct Hin as [Hin|Hin]; [discriminate | eauto].
  - destruct Hin as [Hin|Hin]; [discriminate | eauto].
  - destruct Hin as [Hin|Hin].
    + injection Hin as -> -> ->. exists text0, v, v'. split; [exact Hc|].
      left. reflexivity.
    + destruct (IH _ _ _ Hin) as (text & u & u' & Hu & Hi).
      exists text, u, u'. split; [exact Hu | right; exact Hi].
Qed.

Lemma call_tool_unknown name input w :
  known_tool name = false ->
  call_tool name input w = (Ok ("Unknown tool: " +:+ name), w).
Proof.
  unfold known_tool. cbn [existsb]. intros H.
  repeat (apply orb_false_iff in H; destruct H as [?E H]).
  unfold call_tool. rewrite E, E0, E1, E2, E3. reflexivity.
Qed.

(** The call of an unknown tool is answered by [Unknown tool: name]. *)
Lemma answers_unknown blocks rs id name input :
  answers blocks rs ->
  known_tool name = false ->
  In (ToolUse id name input) blocks ->
  In {| tool_use_id := id; tr_content := "Unknown tool: " +:+ name |} rs.
Proof.
  intros Ha Hk Hin.
  destruct (answers_In _ _ Ha _ _ _ Hin) as (text & v & v' & Hc & Hi).
  rewrite (call_tool_unknown _ _ _ Hk) in Hc. injection Hc as <- _.
  exact Hi.
Qed.

(** The text that answers a call is the text that the [switch]
    returned. *)
Lemma process_block_answer id name input acc w text w' :
  call_tool name input
    (logged T_tool ("Tool call: " +:+ name) (Some (input_json input)) w)
  = (Ok text, w') ->
  process_block (ToolUse id name input) acc w
  = (Ok (true, snd acc ++ [{| tool_use_id := id; tr_content := text |}]), w').
Proof.
  intros E. cbn [process_block]. rewrite bind_log.
  rewrite (bind_ok _ _ _ text w'); [reflexivity|].
  apply try_ok. exact E.
Qed.

Lemma process_block_unknown id name input acc w :
  known_tool name = false ->
  process_block (ToolUse id name input) acc w
  = (Ok (true, snd acc ++ [{| tool_use_id := id;
                              tr_content := "Unknown tool: " +:+ name |}]),
     logged T_tool ("Tool call: " +:+ name) (Some (input_json input)) w).
Proof.
  intros Hk. apply process_block_answer. apply call_tool_unknown. exact Hk.
Qed.

(** One block: a text block and a block of another kind add no result, a
    tool call adds exactly one, under its own id; nothing is thrown, and
    only the command of the call can cut the dispatch short. *)
Lemma process_block_spec block acc w :
  requests (snd (process_block block acc w)) = requests w
  /\ match fst (process_block block acc w) with
     | Ok r =>
         exists rs,
           r = (fst acc || has_tool_use [block], snd acc ++ rs)
           /\ answers [block] rs
     | Throw _ => False
     | r => ended_by (fun cmd => In cmd (commands_of [block])) r
     end.
Proof.
  destruct acc as [h results]. destruct block as [text|id name input|].
  - cbn [process_block]. rewrite bind_log. simpl. split; [reflexivity|].
    exists []. rewrite orb_false_r, app_nil_r.
    split; [reflexivity | repeat constructor].
  - set (w0 := logged T_tool ("Tool call: " +:+ name)
                  (Some (input_json input)) w).
    destruct (settles_call_tool name input w0) as [Hr Hx].
    destruct (call_tool name input w0) as [[text|e|c|] w1] eqn:E;
      cbn [fst snd] in Hr, Hx.
    + rewrite (process_block_answer _ _ _ _ _ _ _ E). cbn [fst snd].
      split; [exact Hr|]. eexists. rewrite orb_true_r.
      split; [reflexivity|]. eapply answers_call; [exact E | constructor].
    + contradiction.
    + cbn [process_block]. rewrite bind_log. fold w0.
      rewrite (bind_exit _ _ _ c w1) by (apply try_exit; exact E).
      cbn [fst snd]. split; [exact Hr|].
      eapply ended_by_mono; [|exact Hx].
      intros cmd Hc. simpl. rewrite app_nil_r. exact Hc.
    + cbn [process_block]. rewrite bind_log. fold w0.
      rewrite (bind_hang _ _ _ w1) by (apply try_hang; exact E).
      cbn [fst snd]. split; [exact Hr|].
      eapply ended_by_mono; [|exact Hx].
      intros cmd Hc. simpl. rewrite app_nil_r. exact Hc.
  - simpl. split; [reflexivity|]. exists [].
    rewrite orb_false_r, app_nil_r.
    split; [reflexivity | repeat constructor].
Qed.

Lemma process_content_spec blocks : forall acc w,
  requests (snd (process_content blocks acc w)) = requests w
  /\ match fst (process_content blocks acc w) with
     | Ok r =>
         exists rs,
           r = (fst acc || has_tool_use blocks, snd acc ++ rs)
           /\ answers blocks rs
     | Throw _ => False
     | r => ended_by (fun cmd => In cmd (commands_of blocks)) r
     end.
Proof.
  induction blocks as [|block rest IH]; intros acc w.
  - simpl. split; [reflexivity|]. exists [].
    rewrite orb_false_r, app_nil_r. destruct acc.
    split; [reflexivity | constructor].
  - cbn [process_content].
    destruct (process_block_spec block acc w) as [Hr1 Hx1].
    change (block :: rest) with ([block] ++ rest).
    destruct (process_block block acc w) as [[r1|e|c|] w1] eqn:E1;
      cbn [fst snd] in Hr1, Hx1.
    + rewrite (bind_ok _ _ _ _ _ E1).
      destruct Hx1 as (rs1 & -> & Ha1).
      destruct (IH (fst acc || has_tool_use [block], snd acc ++ rs1) w1)
        as [Hr2 Hx2].
      split; [congruence|].
      destruct (fst (process_content rest _ w1)) as [r2|e|c|].
      * destruct Hx2 as (rs2 & -> & Ha2). exists (rs1 ++ rs2).
        cbn [fst snd]. rewrite <- app_assoc, <- orb_assoc.
        split; [|apply answers_app; assumption].
        f_equal. f_equal. unfold has_tool_use. simpl.
        rewrite orb_false_r. reflexivity.
      * exact Hx2.
      * eapply ended_by_mono; [|exact Hx2].
        intros cmd Hc. rewrite commands_of_app. apply in_or_app. auto.
      * eapply ended_by_mono; [|exact Hx2].
        intros cmd Hc. rewrite commands_of_app. apply in_or_app. auto.
    + contradiction.
    + rewrite (bind_exit _ _ _ _ _ E1). cbn [fst snd]. split; [exact Hr1|].
      eapply ended_by_mono; [|exact Hx1].
      intros cmd Hc. rewrite commands_of_app. apply in_or_app. auto.
    + rewrite (bind_hang _ _ _ _ E1). cbn [fst snd]. split; [exact Hr1|].
      eapply ended_by_mono; [|exact Hx1].
      intros cmd Hc. rewrite commands_of_app. apply in_or_app. auto.
Qed.

(** What the dispatch returned answers the calls. *)
Lemma dispatched_answers blocks rs :
  dispatched blocks rs -> answers blocks rs.
Proof.
  intros (v & v' & E).
  destruct (process_content_spec blocks (false, []) v) as [_ H].
  rewrite E in H. cbn [fst snd] in H. destruct H as (rs' & Hr & Ha).
  simpl in Hr. inversion Hr; subst. exact Ha.
Qed.

Lemma process_content_dispatched blocks w r w' :
  process_content blocks (false, []) w = (Ok r, w') ->
  r = (has_tool_use blocks, snd r) /\ dispatched blocks (snd r).
Proof.
  intros E.
  destruct (process_content_spec blocks (false, []) w) as [_ H].
  rewrite E in H. cbn [fst snd] in H. destruct H as (rs & -> & _).
  cbn [fst snd orb app]. split; [reflexivity|].
  exists w, w'. exact E.
Qed.

End Dispatch.

(** ** The conversation loop *)

Section Loop.

Context `{rt : Runtime}.

(** A turn, step by step: the entry of the iteration, the request, the
    entry of the response, the dispatch of its blocks, and the state
    that [next_state] makes of the results that the dispatch returned. *)
Lemma loop_body_steps claudeMd st w :
  let req := request_of claudeMd st in
  let w0 := push_request req
              (logged T_system
                 ("Iteration " +:+ JS.show (S (iterationCount st)) +:+ "/"
                  +:+ JS.show MAX_ITERATIONS) None w) in
  loop_body claudeMd st w
  = match messages_create (length (requests w)) req with
    | inl e => (Throw e, w0)
    | inr response =>
        let w1 := logged T_message
                    ("Claude response (stop_reason: "
                     +:+ stop_reason response +:+ ")") None w0 in
        match process_content (content response) (false, []) w1 with
        | (Ok r, w2) =>
            (Ok (next_state st response (snd r)),
             if stops response
             then logged T_system "Conversation ended" None w2
             else w2)
        | (Throw e, w2) => (Throw e, w2)
        | (Exit c, w2) => (Exit c, w2)
        | (Hang, w2) => (Hang, w2)
        end
    end.
Proof.
  cbv zeta. unfold loop_body. rewrite bind_log.
  set (v := logged _ _ _ w).
  fold (request_of claudeMd st).
  assert (Hv : requests v = requests w) by reflexivity.
  destruct (messages_create (length (requests w)) (request_of claudeMd st))
    as [e|response] eqn:Hm.
  - apply bind_throw. unfold create. rewrite Hv, Hm. reflexivity.
  - assert (Hc : create (request_of claudeMd st) v
                 = (Ok response, push_request (request_of claudeMd st) v)).
    { unfold create. rewrite Hv, Hm. reflexivity. }
    rewrite (bind_ok _ _ _ _ _ Hc). rewrite bind_log.
    set (w1 := logged _ _ _ _).
    destruct (process_content (content response) (false, []) w1)
      as [[r|e|c|] w2] eqn:E.
    + rewrite (bind_ok _ _ _ _ _ E).
      destruct (process_content_dispatched _ _ _ _ E) as [Hr Hd].
      rewrite Hr. cbn [fst snd]. unfold next_state, stops.
      destruct (String.eqb (stop_reason response) "end_turn"
                || negb (has_tool_use (content response))) eqn:Hs.
      * rewrite bind_log. reflexivity.
      * apply orb_false_iff in Hs. destruct Hs as [_ Hs].
        apply negb_false_iff in Hs. apply has_tool_use_ids in Hs.
        rewrite <- (answers_ids _ _ (dispatched_answers _ _ Hd)) in Hs.
        destruct (snd r) as [|r0 rs']; [simpl in Hs; congruence|].
        simpl. rewrite <- app_assoc. reflexivity.
    + apply bind_throw. exact E.
    + apply bind_exit. exact E.
    + apply bind_hang. exact E.
Qed.

(** A turn sends exactly one request, the transcript as it stands.  When
    the endpoint rejects it the turn throws; otherwise nothing is thrown
    and, unless a command of a call of the response cuts the turn short,
    the state is what [next_state] makes of the results that the
    dispatch returned, which answer the calls of the response. *)
Lemma loop_body_spec claudeMd st w :
  requests (snd (loop_body claudeMd st w))
  = requests w ++ [request_of claudeMd st]
  /\ match messages_create (length (requests w)) (request_of claudeMd st) with
     | inl e => fst (loop_body claudeMd st w) = Throw e
     | inr response =>
         match fst (loop_body claudeMd st w) with
         | Ok st' =>
             exists rs,
               st' = next_state st response rs
               /\ dispatched (content response) rs
               /\ answers (content response) rs
         | Throw _ => False
         | r => ended_by (fun cmd => In cmd (commands_of (content response))) r
         end
     end.
Proof.
  rewrite loop_body_steps. cbv zeta.
  destruct (messages_create (length (requests w)) (request_of claudeMd st))
    as [e|response] eqn:Hm.
  - split; reflexivity.
  - set (w1 := logged _ _ _ _).
    assert (Hw1 : requests w1 = requests w ++ [request_of claudeMd st])
      by reflexivity.
    destruct (process_content_spec (content response) (false, []) w1)
      as [Hr Hx].
    destruct (process_content (content response) (false, []) w1)
      as [[r|e|c|] w2] eqn:E; cbn [fst snd] in Hr, Hx |- *.
    + split.
      * destruct (stops response); simpl; congruence.
      * destruct (process_content_dispatched _ _ _ _ E) as [_ Hd].
        exists (snd r). split; [reflexivity|]. split; [exact Hd|].
        apply dispatched_answers. exact Hd.
    + contradiction.
    + split; [congruence | exact Hx].
    + split; [congruence | exact Hx].
Qed.

Lemma next_state_count st response rs :
  iterationCount (next_state st response rs) = S (iterationCount st).
Proof. unfold next_state. destruct (stops response); reflexivity. Qed.

(** A turn that returns has raised the iteration count by one. *)
Lemma loop_body_count claudeMd st w st' w' :
  loop_body claudeMd st w = (Ok st', w') ->
  iterationCount st' = S (iterationCount st).
Proof.
  intros E. destruct (loop_body_spec claudeMd st w) as [_ H].
  rewrite E in H. cbn [fst] in H.
  destruct (messages_create _ _); [discriminate|].
  destruct H as (rs & -> & _). apply next_state_count.
Qed.

Lemma answered_snoc c rs : forall ms,
  answered ms = true ->
  map tool_use_id rs = tool_use_ids c ->
  answered (ms ++ [Assistant c; UserResults rs]) = true.
Proof.
  intros ms Hms Hid. induction ms as [|m rest IH].
  - simpl. rewrite bool_decide_eq_true_2 by exact Hid. reflexivity.
  - destruct m as [u|c0|rs0]; simpl in *; auto.
    destruct rest as [|[u1|c1|rs1] rest']; try discriminate.
    simpl in *. apply andb_true_iff in Hms. destruct Hms as [H1 H2].
    rewrite H1. simpl. apply IH. exact H2.
Qed.

Lemma next_state_answered st response rs :
  answered (messages st) = true ->
  answers (content response) rs ->
  answered (messages (next_state st response rs)) = true.
Proof.
  intros Ha Hid. unfold next_state.
  destruct (stops response); simpl; [exact Ha|].
  apply answered_snoc; [exact Ha | apply answers_ids; exact Hid].
Qed.

Lemma loop_condition_lt st :
  loop_condition st = true -> iterationCount st < MAX_ITERATIONS.
Proof.
  unfold loop_condition. intros H. apply andb_true_iff in H.
  destruct H as [_ H]. apply Nat.ltb_lt in H. exact H.
Qed.

Lemma loop_condition_stopped st :
  continueLoop st = false -> loop_condition st = false.
Proof. intros H. unfold loop_condition. rewrite H. reflexivity. Qed.

Lemma while_loop_done fuel claudeMd st w :
  loop_condition st = false -> while_loop fuel claudeMd st w = (Ok st, w).
Proof. intros Hc. destruct fuel; simpl; rewrite Hc; reflexivity. Qed.

Lemma rejected_cons w w' req new e :
  requests w' = requests w ++ [req] ->
  rejected w' new e -> rejected w (req :: new) e.
Proof.
  intros Hr (sent & last & -> & Hm). exists (req :: sent), last.
  split; [reflexivity|].
  rewrite Hr, length_app in Hm. simpl in *.
  rewrite <- Hm. f_equal. lia.
Qed.

Lemma cut_short_cons {A} w w' req new (r : Result A) :
  requests w' = requests w ++ [req] ->
  cut_short w' new r -> cut_short w (req :: new) r.
Proof.
  intros Hr (sent & last & response & -> & Hm & Hx).
  exists (req :: sent), last, response.
  split; [reflexivity|]. split; [|exact Hx].
  rewrite Hr, length_app in Hm. simpl in *.
  rewrite <- Hm. f_equal. lia.
Qed.

(** The loop, for any number of turns allowed: the requests it sends are
    at most those that separate the iteration count from the ceiling;
    they form a conversation; each carries an answered transcript; the
    count that the loop returns is the count it started from plus the
    number of requests sent; an error that the loop throws is the
    rejection of its last request, and the process ends in the loop only
    when a command of a call of the last response cuts it short. *)
Lemma while_loop_spec claudeMd fuel : forall st w,
  exists new,
    requests (snd (while_loop fuel claudeMd st w)) = requests w ++ new
    /\ length new <= MAX_ITERATIONS - iterationCount st
    /\ conversation claudeMd (length (requests w)) (messages st) new
    /\ (loop_condition st = false -> new = [])
    /\ (answered (messages st) = true ->
        Forall (fun req => answered (req_messages req) = true) new)
    /\ match fst (while_loop fuel claudeMd st w) with
       | Ok st' => iterationCount st' = iterationCount st + length new
       | Throw e => rejected w new e
       | r => cut_short w new r
       end.
Proof.
  induction fuel as [|fuel IH]; intros st w.
  - exists []. simpl. destruct (loop_condition st); simpl;
      rewrite app_nil_r; repeat split; auto; try lia; constructor.
  - destruct (loop_condition st) eqn:Hc.
    2:{ exists []. rewrite (while_loop_done _ _ _ _ Hc). simpl.
        rewrite app_nil_r. repeat split; auto; try lia; constructor. }
    cbn [while_loop]. rewrite Hc.
    apply loop_condition_lt in Hc.
    destruct (loop_body_spec claudeMd st w) as [Hr Hb].
    destruct (loop_body claudeMd st w) as [[st1|e|c|] w1] eqn:E;
      cbn [fst snd] in Hr, Hb.
    + (* the turn returned *)
      rewrite (bind_ok _ _ _ _ _ E).
      destruct (messages_create (length (requests w)) (request_of claudeMd st))
        as [e|response] eqn:Hm; [discriminate|].
      destruct Hb as (rs & -> & Hd & Ha).
      destruct (IH (next_state st response rs) w1)
        as (new & Hn & Hl & Hconv & Hstop & Hans & Hk).
      exists (request_of claudeMd st :: new).
      rewrite next_state_count in Hl, Hk.
      split; [rewrite Hn, Hr, <- app_assoc; reflexivity|].
      split; [simpl; lia|].
      split; [|split; [discriminate|split]].
      * unfold next_state in Hconv, Hstop.
        destruct (stops response) eqn:Hs.
        -- rewrite Hstop by (apply loop_condition_stopped; reflexivity).
           apply conversation_last.
        -- cbn [messages] in Hconv.
           rewrite Hr, length_app, Nat.add_1_r in Hconv.
           exact (conversation_next _ _ _ _ _ _ Hm Hs Hd Hconv).
      * intros Hst. constructor; [exact Hst|].
        apply Hans. apply next_state_answered; assumption.
      * destruct (fst (while_loop fuel claudeMd (next_state st response rs) w1)).
        -- simpl. lia.
        -- exact (rejected_cons _ _ _ _ _ Hr Hk).
        -- exact (cut_short_cons _ _ _ _ _ Hr Hk).
        -- exact (cut_short_cons _ _ _ _ _ Hr Hk).
    + (* the endpoint rejected the request *)
      rewrite (bind_throw _ _ _ _ _ E). exists [request_of claudeMd st].
      cbn [fst snd].
      split; [exact Hr|]. split; [simpl; lia|].
      split; [apply conversation_last|]. split; [discriminate|].
      split; [intros Hst; repeat constructor; exact Hst|].
      exists [], (request_of claudeMd st). split; [reflexivity|].
      simpl. rewrite Nat.add_0_r.
      destruct (messages_create (length (requests w)) (request_of claudeMd st));
        [congruence | contradiction].
    + (* a command ended the agent *)
      rewrite (bind_exit _ _ _ _ _ E). exists [request_of claudeMd st].
      cbn [fst snd].
      split; [exact Hr|]. split; [simpl; lia|].
      split; [apply conversation_last|]. split; [discriminate|].
      split; [intros Hst; repeat constructor; exact Hst|].
      destruct (messages_create (length (requests w)) (request_of claudeMd st))
        as [e|response] eqn:Hm; [discriminate|].
      exists [], (request_of claudeMd st), response. split; [reflexivity|].
      simpl. rewrite Nat.add_0_r. auto.
    + (* a command never ended *)
      rewrite (bind_hang _ _ _ _ E). exists [request_of claudeMd st].
      cbn [fst snd].
      split; [exact Hr|]. split; [simpl; lia|].
      split; [apply conversation_last|]. split; [discriminate|].
      split; [intros Hst; repeat constructor; exact Hst|].
      destruct (messages_create (length (requests w)) (request_of claudeMd st))
        as [e|response] eqn:Hm; [discriminate|].
      exists [], (request_of claudeMd st), response. split; [reflexivity|].
      simpl. rewrite Nat.add_0_r. auto.
Qed.

(** The turns allowed do not matter once they reach to the ceiling: the
    loop is then ended by its condition. *)
Lemma while_loop_fuel claudeMd : forall fuel1 fuel2 st w,
  MAX_ITERATIONS - iterationCount st <= fuel1 ->
  MAX_ITERATIONS - iterationCount st <= fuel2 ->
  while_loop fuel1 claudeMd st w = while_loop fuel2 claudeMd st w.
Proof.
  induction fuel1 as [|fuel1 IH]; intros fuel2 st w H1 H2.
  - assert (Hc : loop_condition st = false).
    { destruct (loop_condition st) eqn:Hc; [|reflexivity].
      apply loop_condition_lt in Hc. lia. }
    rewrite !while_loop_done by exact Hc. reflexivity.
  - destruct (loop_condition st) eqn:Hc.
    2:{ rewrite !while_loop_done by exact Hc. reflexivity. }
    pose proof (loop_condition_lt _ Hc) as Hlt.
    destruct fuel2 as [|fuel2]; [lia|].
    cbn [while_loop]. rewrite Hc. unfold bind.
    destruct (loop_body claudeMd st w) as [[st1|e|c|] w1] eqn:E; try reflexivity.
    apply loop_body_count in E. apply IH; lia.
Qed.

(** The number of turns allowed to [conversation_loop] is never used up:
    the loop satisfies the equation of the [while] statement. *)
Lemma conversation_loop_unfold claudeMd st w :
  conversation_loop claudeMd st w
  = if loop_condition st
    then bind (loop_body claudeMd st) (conversation_loop claudeMd) w
    else ret st w.
Proof.
  unfold conversation_loop. destruct (loop_condition st) eqn:Hc.
  - pose proof (loop_condition_lt _ Hc) as Hlt.
    change (while_loop (S (MAX_ITERATIONS - iterationCount st)) claudeMd st w)
      with ((if loop_condition st
             then bind (loop_body claudeMd st)
                       (while_loop (MAX_ITERATIONS - iterationCount st)
                                   claudeMd)
             else ret st) w).
    rewrite Hc. unfold bind.
    destruct (loop_body claudeMd st w) as [[st1|e|c|] w1] eqn:E; try reflexivity.
    apply loop_body_count in E. apply while_loop_fuel; lia.
  - apply while_loop_done. exact Hc.
Qed.

End Loop.

(** ** A whole run *)

Section Run.

Context `{rt : Runtime}.

Lemma try_bind_log {A} type content metadata (k : unit -> M A) handler w :
  try_catch (bind (log type content metadata) k) handler w
  = try_catch (k tt) handler (logged type content metadata w).
Proof. unfold try_catch. rewrite bind_log. reflexivity. Qed.

Lemma try_bind_ok {A B} (m : M A) (k : A -> M B) handler w a w1 :
  m w = (Ok a, w1) ->
  try_catch (bind m k) handler w = try_catch (k a) handler w1.
Proof. intros E. unfold try_catch. rewrite (bind_ok _ _ _ _ _ E). reflexivity. Qed.

Lemma returns_read_claude_md : returns read_claude_md.
Proof.
  intros w. unfold read_claude_md.
  destruct (returns_read (Some "CLAUDE.md") w) as [Hr [c Hc]].
  destruct (read (Some "CLAUDE.md") w) as [r w1]. simpl in Hr, Hc. subst r.
  unfold try_catch. rewrite bind_log. simpl. eauto.
Qed.

Lemma write_json_ok data w :
  writeFileSync (Some LOG_JSON) data w
  = (Ok tt, set_files (<[LOG_JSON := data]> (files w)) w).
Proof.
  unfold writeFileSync. rewrite resolve_json, json_writable, json_whole.
  reflexivity.
Qed.

Lemma write_summary_ok data w :
  writeFileSync (Some ERROR_SUMMARY) data w
  = (Ok tt, set_files (<[ERROR_SUMMARY := data]> (files w)) w).
Proof.
  unfold writeFileSync.
  rewrite resolve_summary, summary_writable, summary_whole. reflexivity.
Qed.

Lemma unconfigured_steps w :
  JS.truthy (env_or "FEATURE_REQUEST" EmptyString) = false ->
  implementFeature w
  = (Exit 1,
     logged T_error "No FEATURE_REQUEST provided" None
       (logged T_system "Starting feature implementation" None w)).
Proof.
  intros Hfr. unfold implementFeature. rewrite try_bind_log.
  rewrite Hfr. cbn [negb]. unfold try_catch, bind at 1 2.
  rewrite log_ok. reflexivity.
Qed.

(** Every run of [implementFeature] ends in one of four ways; it has
    sent at most [MAX_ITERATIONS] requests, which form a conversation
    that starts from the user prompt, and every transcript it sent was
    answered. *)
Lemma implementFeature_spec w :
  exists claudeMd new,
    requests (snd (implementFeature w)) = requests w ++ new
    /\ length new <= MAX_ITERATIONS
    /\ conversation claudeMd (length (requests w))
         [UserText (userPrompt (env_or "FEATURE_REQUEST" EmptyString))] new
    /\ Forall (fun req => answered (req_messages req) = true) new
    /\ (ends_unconfigured (fst (implementFeature w)) new
        \/ ends_completed (fst (implementFeature w))
                          (snd (implementFeature w)) new
        \/ ends_failed (fst (implementFeature w)) w
                       (snd (implementFeature w)) new
        \/ cut_short w new (fst (implementFeature w))).
Proof.
  destruct (JS.truthy (env_or "FEATURE_REQUEST" EmptyString)) eqn:Hfr.
  - (* a feature request is present *)
    unfold implementFeature.
    set (handler := fun error : JsError => _).
    rewrite try_bind_log. set (w1 := logged _ _ _ w).
    rewrite Hfr. cbn [negb].
    rewrite (try_bind_ok _ _ _ _ tt w1) by reflexivity.
    rewrite try_bind_log. set (w2 := logged _ _ _ w1).
    destruct (returns_read_claude_md w2) as [Hr3 [claudeMd Hc]].
    destruct (read_claude_md w2) as [r3 w3] eqn:E3. simpl in Hr3, Hc. subst r3.
    rewrite (try_bind_ok _ _ _ _ _ _ E3).
    set (st0 := {| messages := _; continueLoop := true; iterationCount := 0 |}).
    destruct (while_loop_spec claudeMd (S (MAX_ITERATIONS - 0)) st0 w3)
      as (new & Hn & Hl & Hconv & _ & Ha & Hk).
    change (while_loop (S (MAX_ITERATIONS - 0)) claudeMd st0 w3)
      with (conversation_loop claudeMd st0 w3) in Hn, Hk.
    exists claudeMd, new.
    assert (Hreq : requests w3 = requests w) by (rewrite Hr3; reflexivity).
    rewrite Hreq in Hn, Hconv.
    change (length new <= MAX_ITERATIONS - 0) in Hl. rewrite Nat.sub_0_r in Hl.
    specialize (Ha eq_refl).
    assert (Hrej : forall e, rejected w3 new e -> rejected w new e).
    { intros e (sent & req & H1 & H2). exists sent, req.
      rewrite <- Hreq. auto. }
    assert (Hcut : forall r : Result nat, cut_short w3 new r -> cut_short w new r).
    { intros r (sent & req & response & H1 & H2 & H3).
      exists sent, req, response. rewrite <- Hreq. auto. }
    destruct (conversation_loop claudeMd st0 w3) as [[st|e|c|] w4] eqn:E4;
      cbn [fst snd] in Hn, Hk.
    + (* the loop returned *)
      rewrite (try_bind_ok _ _ _ _ _ _ E4).
      set (w5 := if Nat.leb MAX_ITERATIONS (iterationCount st)
                 then logged T_system "Reached maximum iterations" None w4
                 else w4).
      assert (E5 : (if Nat.leb MAX_ITERATIONS (iterationCount st)
                    then log T_system "Reached maximum iterations" None
                    else ret tt) w4 = (Ok tt, w5)).
      { unfold w5. destruct (Nat.leb MAX_ITERATIONS (iterationCount st));
          [apply log_ok | reflexivity]. }
      rewrite (try_bind_ok _ _ _ _ _ _ E5).
      rewrite try_bind_log. set (w6 := logged _ _ _ w5).
      rewrite (try_bind_ok _ _ _ _ (logs w6) w6) by reflexivity.
      rewrite (try_bind_ok _ _ _ _ _ _ (write_json_ok _ w6)).
      unfold try_catch, ret. cbn [fst snd].
      assert (H5 : requests w5 = requests w4)
        by (unfold w5; destruct (Nat.leb _ _); reflexivity).
      split; [simpl; rewrite H5; exact Hn|].
      split; [exact Hl|]. split; [exact Hconv|]. split; [exact Ha|].
      right; left. split; [reflexivity|].
      simpl. rewrite lookup_insert_eq. rewrite Hk. reflexivity.
    + (* the loop threw *)
      assert (Eb : forall B (k : LoopState -> M B),
                 bind (conversation_loop claudeMd st0) k w3 = (Throw e, w4))
        by (intros; apply bind_throw; exact E4).
      rewrite (try_throw _ _ _ _ _ (Eb _ _)).
      unfold handler. rewrite bind_log. set (w5 := logged _ _ _ w4).
      rewrite (bind_ok _ _ _ (logs w5) w5) by reflexivity.
      rewrite (bind_ok _ _ _ _ _ (write_summary_ok _ w5)).
      rewrite (bind_ok _ _ _ _ _ (write_json_ok _ _)).
      unfold ret. cbn [fst snd].
      split; [exact Hn|].
      split; [exact Hl|]. split; [exact Hconv|]. split; [exact Ha|].
      right; right; left. split; [reflexivity|]. exists e.
      split; [apply Hrej; exact Hk|]. simpl.
      rewrite lookup_insert_eq.
      rewrite lookup_insert_ne by discriminate.
      rewrite lookup_insert_eq.
      repeat split.
      exists (logs w4), (entry_at T_error ("Fatal error: " +:+ e_message e)
                           (Some (JObj [("stack", JStr (e_stack e))])) w4).
      split; [reflexivity | split; reflexivity].
    + (* a command ended the agent *)
      assert (Eb : forall B (k : LoopState -> M B),
                 bind (conversation_loop claudeMd st0) k w3 = (Exit c, w4))
        by (intros; apply bind_exit; exact E4).
      rewrite (try_exit _ _ _ _ _ (Eb _ _)). cbn [fst snd].
      split; [exact Hn|].
      split; [exact Hl|]. split; [exact Hconv|]. split; [exact Ha|].
      right; right; right. apply Hcut. exact Hk.
    + (* a command never ended *)
      assert (Eb : forall B (k : LoopState -> M B),
                 bind (conversation_loop claudeMd st0) k w3 = (Hang, w4))
        by (intros; apply bind_hang; exact E4).
      rewrite (try_hang _ _ _ _ (Eb _ _)). cbn [fst snd].
      split; [exact Hn|].
      split; [exact Hl|]. split; [exact Hconv|]. split; [exact Ha|].
      right; right; right. apply Hcut. exact Hk.
  - (* no feature request *)
    rewrite (unconfigured_steps w Hfr). exists EmptyString, [].
    cbn [fst snd]. simpl requests. rewrite app_nil_r.
    split; [reflexivity|]. split; [simpl; lia|].
    split; [constructor|]. split; [constructor|].
    left. split; [reflexivity|]. split; [|reflexivity].
    destruct (env_or "FEATURE_REQUEST" EmptyString); [reflexivity|discriminate].
Qed.

End Run.

(** ** The file tools *)

Section FileTools.

Context `{rt : Runtime}.

Lemma try_ret {A} (a : A) handler w : try_catch (ret a) handler w = (Ok a, w).
Proof. reflexivity. Qed.

Lemma readFileSync_ok f c w :
  files w !! resolve f = Some c -> readFileSync (Some f) w = (Ok c, w).
Proof. intros H. unfold readFileSync. rewrite H. reflexivity. Qed.

Lemma readFileSync_missing f w :
  files w !! resolve f = None ->
  readFileSync (Some f) w = (Throw (fs_error "open" f), w).
Proof. intros H. unfold readFileSync. rewrite H. reflexivity. Qed.

Lemma writeFileSync_ok f data w :
  writable (resolve f) = true ->
  torn (resolve f) data = None ->
  writeFileSync (Some f) data w
  = (Ok tt, set_files (<[resolve f := data]> (files w)) w).
Proof. intros H1 H2. unfold writeFileSync. rewrite H1, H2. reflexivity. Qed.

Lemma writeFileSync_torn f data remains w :
  writable (resolve f) = true ->
  torn (resolve f) data = Some remains ->
  writeFileSync (Some f) data w
  = (Throw (fs_error "write" f),
     set_files (<[resolve f := remains]> (files w)) w).
Proof. intros H1 H2. unfold writeFileSync. rewrite H1, H2. reflexivity. Qed.

Lemma writeFileSync_denied f data w :
  writable (resolve f) = false ->
  writeFileSync (Some f) data w = (Throw (fs_error "open" f), w).
Proof. intros H. unfold writeFileSync. rewrite H. reflexivity. Qed.

(** [read], step by step. *)
Lemma read_steps f w :
  let w0 := logged T_tool ("Reading file: " +:+ f) None w in
  read (Some f) w
  = match files w0 !! resolve f with
    | Some c =>
        (Ok c,
         logged T_tool ("Successfully read " +:+ f +:+ " ("
                        +:+ JS.show (String.length c) +:+ " chars)") None w0)
    | None =>
        (Ok ("Error: " +:+ ("Failed to read " +:+ f +:+ ": "
                            +:+ toString (fs_error "open" f))),
         logged T_error ("Failed to read " +:+ f +:+ ": "
                         +:+ toString (fs_error "open" f)) None w0)
    end.
Proof.
  cbv zeta. unfold read. rewrite try_bind_log. set (w0 := logged _ _ _ w).
  destruct (files w0 !! resolve f) as [c|] eqn:Hf.
  - rewrite (try_bind_ok _ _ _ _ _ _ (readFileSync_ok _ _ _ Hf)).
    rewrite try_bind_log, try_ret. reflexivity.
  - rewrite (try_throw _ _ _ (fs_error "open" f) w0)
      by (apply bind_throw, readFileSync_missing; exact Hf).
    rewrite bind_log. reflexivity.
Qed.

(** [write], step by step: the directory, the open, the write. *)
Lemma write_steps f content w :
  let w0 := logged T_tool ("Writing file: " +:+ f)
              (Some (JObj [("contentLength", JNum (String.length content))]))
              w in
  write (Some f) (Some content) w
  = if mkdir_ok (dirname f) then
      if writable (resolve f) then
        match torn (resolve f) content with
        | None =>
            (Ok ("Successfully wrote " +:+ f),
             logged T_tool ("Successfully wrote " +:+ f) None
               (set_files (<[resolve f := content]> (files w0)) w0))
        | Some remains =>
            (Ok ("Error: " +:+ ("Failed to write " +:+ f +:+ ": "
                                +:+ toString (fs_error "write" f))),
             logged T_error ("Failed to write " +:+ f +:+ ": "
                             +:+ toString (fs_error "write" f)) None
               (set_files (<[resolve f := remains]> (files w0)) w0))
        end
      else
        (Ok ("Error: " +:+ ("Failed to write " +:+ f +:+ ": "
                            +:+ toString (fs_error "open" f))),
         logged T_error ("Failed to write " +:+ f +:+ ": "
                         +:+ toString (fs_error "open" f)) None w0)
    else
      (Ok ("Error: " +:+ ("Failed to write " +:+ f +:+ ": "
                          +:+ toString (fs_error "mkdir" (dirname f)))),
       logged T_error ("Failed to write " +:+ f +:+ ": "
                       +:+ toString (fs_error "mkdir" (dirname f))) None w0).
Proof.
  cbv zeta. unfold write.
  rewrite (try_bind_ok _ _ _ _ (String.length content) w) by reflexivity.
  rewrite try_bind_log. set (w0 := logged _ _ _ w).
  destruct (mkdir_ok (dirname f)) eqn:Hd.
  - rewrite (try_bind_ok _ _ _ _ tt w0)
      by (unfold mkdir_dirname; rewrite Hd; reflexivity).
    destruct (writable (resolve f)) eqn:Hw.
    + destruct (torn (resolve f) content) as [remains|] eqn:Ht.
      * rewrite (try_throw _ _ _ _ _
                   (bind_throw _ _ _ _ _
                      (writeFileSync_torn _ _ _ w0 Hw Ht))).
        rewrite bind_log. reflexivity.
      * rewrite (try_bind_ok _ _ _ _ _ _ (writeFileSync_ok _ _ w0 Hw Ht)).
        rewrite try_bind_log, try_ret. reflexivity.
    + rewrite (try_throw _ _ _ (fs_error "open" f) w0)
        by (apply bind_throw, writeFileSync_denied; exact Hw).
      rewrite bind_log. reflexivity.
  - rewrite (try_throw _ _ _ (fs_error "mkdir" (dirname f)) w0)
      by (apply bind_throw; unfold mkdir_dirname; rewrite Hd; reflexivity).
    rewrite bind_log. reflexivity.
Qed.

(** [edit], step by step: the read, the test, the open, the write. *)
Lemma edit_steps f oldText newText w :
  let w0 := logged T_tool ("Editing file: " +:+ f) None w in
  edit (Some f) oldText newText w
  = match files w0 !! resolve f with
    | None =>
        (Ok ("Error: " +:+ ("Failed to edit " +:+ f +:+ ": "
                            +:+ toString (fs_error "open" f))),
         logged T_error ("Failed to edit " +:+ f +:+ ": "
                         +:+ toString (fs_error "open" f)) None w0)
    | Some c =>
        let newContent := JS.replace c (JS.str oldText) (JS.str newText) in
        if negb (JS.includes c (JS.str oldText)) then
          (Ok ("Error: " +:+ ("Old text not found in " +:+ f)),
           logged T_error ("Old text not found in " +:+ f) None w0)
        else if writable (resolve f) then
          match torn (resolve f) newContent with
          | None =>
              (Ok ("Successfully edited " +:+ f),
               logged T_tool ("Successfully edited " +:+ f) None
                 (set_files (<[resolve f := newContent]> (files w0)) w0))
          | Some remains =>
              (Ok ("Error: " +:+ ("Failed to edit " +:+ f +:+ ": "
                                  +:+ toString (fs_error "write" f))),
               logged T_error ("Failed to edit " +:+ f +:+ ": "
                               +:+ toString (fs_error "write" f)) None
                 (set_files (<[resolve f := remains]> (files w0)) w0))
          end
        else
          (Ok ("Error: " +:+ ("Failed to edit " +:+ f +:+ ": "
                              +:+ toString (fs_error "open" f))),
           logged T_error ("Failed to edit " +:+ f +:+ ": "
                           +:+ toString (fs_error "open" f)) None w0)
    end.
Proof.
  cbv zeta. unfold edit. rewrite try_bind_log. set (w0 := logged _ _ _ w).
  destruct (files w0 !! resolve f) as [c|] eqn:Hf.
  - rewrite (try_bind_ok _ _ _ _ _ _ (readFileSync_ok _ _ _ Hf)).
    destruct (negb (JS.includes c (JS.str oldText))).
    + rewrite try_bind_log, try_ret. reflexivity.
    + destruct (writable (resolve f)) eqn:Hw.
      * destruct (torn (resolve f)
                    (JS.replace c (JS.str oldText) (JS.str newText)))
          as [remains|] eqn:Ht.
        -- rewrite (try_throw _ _ _ _ _
                      (bind_throw _ _ _ _ _
                         (writeFileSync_torn _ _ _ w0 Hw Ht))).
           rewrite bind_log. reflexivity.
        -- rewrite (try_bind_ok _ _ _ _ _ _ (writeFileSync_ok _ _ w0 Hw Ht)).
           rewrite try_bind_log, try_ret. reflexivity.
      * rewrite (try_throw _ _ _ (fs_error "open" f) w0)
          by (apply bind_throw, writeFileSync_denied; exact Hw).
        rewrite bind_log. reflexivity.
  - rewrite (try_throw _ _ _ (fs_error "open" f) w0)
      by (apply bind_throw, readFileSync_missing; exact Hf).
    rewrite bind_log. reflexivity.
Qed.








(** [edit] when the old text is missing, on a file that is not the log:
    the error is returned and only the log has changed. *)
Lemma edit_not_found f c oldText newText w :
  resolve f <> LOG_FILE ->
  files w !! resolve f = Some c ->
  JS.includes c (JS.str oldText) = false ->
  edit (Some f) oldText newText w
  = (Ok ("Error: Old text not found in " +:+ f),
     logged T_error ("Old text not found in " +:+ f) None
       (logged T_tool ("Editing file: " +:+ f) None w)).
Proof.
  intros Hne Hf Hinc. rewrite edit_steps. cbv zeta.
  rewrite logged_files_other by exact Hne. rewrite Hf, Hinc. reflexivity.
Qed.



(** [write] on a file that is not the log, when it reports success. *)
Lemma write_success f content w w1 :
  resolve f <> LOG_FILE ->
  write (Some f) (Some content) w = (Ok ("Successfully wrote " +:+ f), w1) ->
  files w1 !! resolve f = Some content.
Proof.
  intros Hne. rewrite write_steps. cbv zeta.
  destruct (mkdir_ok (dirname f));
    [destruct (writable (resolve f));
     [destruct (torn (resolve f) content)|]|];
    intros E; inversion E; subst.
  rewrite logged_files_other by exact Hne. simpl. apply lookup_insert_eq.
Qed.

(** [read] on a file that is not the log. *)
Lemma read_ok f c w :
  resolve f <> LOG_FILE ->
  files w !! resolve f = Some c ->
  exists w', read (Some f) w = (Ok c, w')
             /\ forall g, g <> LOG_FILE -> files w' !! g = files w !! g.
Proof.
  intros Hne Hf. rewrite read_steps. cbv zeta.
  rewrite logged_files_other by exact Hne. rewrite Hf.
  eexists. split; [reflexivity|].
  intros g Hg. rewrite !logged_files_other by exact Hg. reflexivity.
Qed.

End FileTools.

(** ** The claims about [read], [write] and [edit] *)

(** C3, where the code departs from the claim: the new text is read as
    a replacement template.  In a file that holds [PID] once, replacing
    [PID] by two dollar signs is reported as a success and writes a
    single dollar sign. *)
Theorem edit_new_text_is_a_template :
  let w := Sample.world_with "run.sh" "kill PID" in
  let r := @edit Sample.offline (Some "run.sh") (Some "PID") (Some "$$") w in
  occurrences "PID" "kill PID" = 1
  /\ fst r = Ok "Successfully edited run.sh"
  /\ files (snd r) !! "run.sh" = Some "kill $"
  /\ "kill $" <> "kill " +:+ "$$".
Proof. vm_compute. repeat split; discriminate. Qed.

(** C4 as stated fails on the log file: the calls of [log] inside [edit]
    append to the very file that is edited. *)
Lemma edit_missing_text_counterexample :
  let w := Sample.world_with LOG_FILE "boot" in
  let r := @edit Sample.offline (Some LOG_FILE) (Some "zzz") (Some "y") w in
  files w !! LOG_FILE = Some "boot"
  /\ JS.includes "boot" "zzz" = false
  /\ fst r = Ok "Error: Old text not found in claude-execution.log"
  /\ files (snd r) !! LOG_FILE <> Some "boot".
Proof. vm_compute. repeat split; discriminate. Qed.

(** The same under another spelling of the path of the log: the file
    that [./claude-execution.log] names is the log, and it changes. *)
Example edit_missing_text_on_an_alias_of_the_log :
  let w := Sample.world_with LOG_FILE "boot" in
  let r := @edit Sample.offline (Some "./claude-execution.log") (Some "zzz")
                 (Some "y") w in
  @resolve Sample.offline "./claude-execution.log" = LOG_FILE
  /\ fst r = Ok "Error: Old text not found in ./claude-execution.log"
  /\ files (snd r) !! LOG_FILE <> Some "boot".
Proof. vm_compute. repeat split; discriminate. Qed.

(** C4, amended: on a file other than the execution log, under whatever
    spelling of its path, whose contents do not include the old text,
    [edit] returns the error text (it throws nothing and reports no
    success) and leaves that file, and every file but the log, as it
    was. *)
Theorem edit_missing_text_reported `{rt : Runtime} f c oldText newText w :
  resolve f <> LOG_FILE ->
  files w !! resolve f = Some c ->
  JS.includes c oldText = false ->
  exists w',
    edit (Some f) (Some oldText) newText w
    = (Ok ("Error: Old text not found in " +:+ f), w')
    /\ files w' !! resolve f = Some c
    /\ forall g, g <> LOG_FILE -> files w' !! g = files w !! g.
Proof.
  intros Hne Hf Hinc. eexists. split.
  - apply (edit_not_found f c (Some oldText)); assumption.
  - split.
    + rewrite !logged_files_other by exact Hne. exact Hf.
    + intros g Hg. rewrite !logged_files_other by exact Hg. reflexivity.
Qed.

Lemma edit_missing_text_reported_witness :
  exists w',
    @edit Sample.offline (Some "./a.txt") (Some "zzz") (Some "y")
          (Sample.world_with "a.txt" "hello")
    = (Ok "Error: Old text not found in ./a.txt", w')
    /\ files w' !! "a.txt" = Some "hello"
    /\ forall g, g <> LOG_FILE ->
                 files w' !! g = files (Sample.world_with "a.txt" "hello") !! g.
Proof.
  apply (@edit_missing_text_reported Sample.offline "./a.txt" "hello" "zzz"
           (Some "y") (Sample.world_with "a.txt" "hello")).
  - discriminate.
  - reflexivity.
  - reflexivity.
Defined.

(** C5 as stated fails on the log file: what is read back ends with the
    lines that [write] and [read] themselves have logged. *)
Lemma write_read_counterexample :
  let r := @write Sample.offline (Some LOG_FILE) (Some "hello")
                  Sample.empty_world in
  fst r = Ok "Successfully wrote claude-execution.log"
  /\ fst (@read Sample.offline (Some LOG_FILE) (snd r)) <> Ok "hello".
Proof. vm_compute. split; [reflexivity | discriminate]. Qed.

(** The same under another spelling of the path of the log. *)
Example write_read_on_an_alias_of_the_log :
  let r := @write Sample.offline (Some "./claude-execution.log")
                  (Some "hello") Sample.empty_world in
  fst r = Ok "Successfully wrote ./claude-execution.log"
  /\ fst (@read Sample.offline (Some LOG_FILE) (snd r)) <> Ok "hello"
  /\ fst (@read Sample.offline (Some "./claude-execution.log") (snd r))
     <> Ok "hello".
Proof. vm_compute. repeat split; discriminate. Qed.

(** C5, amended: for every path that names a file other than the
    execution log and every content, when [write] reports success the
    file holds exactly the content, whatever it held before, and [read]
    returns it, under the same and under any other spelling of the
    path. *)
Theorem write_then_read `{rt : Runtime} f content w w1 :
  resolve f <> LOG_FILE ->
  write (Some f) (Some content) w = (Ok ("Successfully wrote " +:+ f), w1) ->
  files w1 !! resolve f = Some content
  /\ forall f', resolve f' = resolve f ->
                exists w2, read (Some f') w1 = (Ok content, w2).
Proof.
  intros Hne Hw. pose proof (write_success _ _ _ _ Hne Hw) as Hf.
  split; [exact Hf|]. intros f' Hf'.
  destruct (read_ok f' content w1) as (w2 & E & _).
  - rewrite Hf'. exact Hne.
  - rewrite Hf'. exact Hf.
  - eauto.
Qed.

Lemma write_then_read_witness :
  let w := Sample.world_with "a.txt" "old" in
  let w1 := snd (@write Sample.offline (Some "./a.txt") (Some "new") w) in
  files w1 !! "a.txt" = Some "new"
  /\ forall f', @resolve Sample.offline f' = "a.txt" ->
                exists w2, @read Sample.offline (Some f') w1 = (Ok "new", w2).
Proof.
  apply (@write_then_read Sample.offline "./a.txt" "new"
           (Sample.world_with "a.txt" "old")).
  - discriminate.
  - reflexivity.
Defined.




(** ** The claims about the shell tools and the dispatch *)

(** The entries that [glob] keeps of an output. *)
Section Lines.

Lemma split_lines_cons s : exists h t, JS.split_lines s = h :: t.
Proof.
  induction s as [|c s' [h [t IH]]]; simpl; [eauto|].
  destruct (Ascii.eqb c JS.LF); [eauto|]. rewrite IH. eauto.
Qed.

Lemma kept_newline s : kept (String JS.LF s) = kept s.
Proof. reflexivity. Qed.

Lemma kept_after_first_newline s : kept_after_first (String JS.LF s) = kept s.
Proof. reflexivity. Qed.

Lemma kept_char c s :
  Ascii.eqb c JS.LF = false -> kept (String c s) = S (kept_after_first s).
Proof.
  intros H. unfold kept, kept_after_first. simpl. rewrite H.
  destruct (split_lines_cons s) as (h & t & E). rewrite E. reflexivity.
Qed.

Lemma kept_after_first_char c s :
  Ascii.eqb c JS.LF = false ->
  kept_after_first (String c s) = kept_after_first s.
Proof.
  intros H. unfold kept_after_first. simpl. rewrite H.
  destruct (split_lines_cons s) as (h & t & E). rewrite E. reflexivity.
Qed.

Lemma kept_tail c s : kept s <= kept (String c s).
Proof.
  destruct (Ascii.eqb c JS.LF) eqn:H.
  - apply Ascii.eqb_eq in H. subst c. rewrite kept_newline. lia.
  - rewrite (kept_char _ _ H). unfold kept, kept_after_first.
    destruct (split_lines_cons s) as (h & t & E). rewrite E. simpl.
    destruct (JS.truthy h); simpl; lia.
Qed.

Lemma space_not_newline c : JS.is_space c = false -> Ascii.eqb c JS.LF = false.
Proof.
  intros H. destruct (Ascii.eqb c JS.LF) eqn:E; [|reflexivity].
  apply Ascii.eqb_eq in E. subst c. discriminate H.
Qed.

Lemma trimEnd_kept s :
  kept (JS.trimEnd s) <= kept s
  /\ kept_after_first (JS.trimEnd s) <= kept_after_first s.
Proof.
  induction s as [|c s' [IH1 IH2]]; [split; reflexivity|].
  cbn [JS.trimEnd]. destruct (JS.trimEnd s') as [|c' r] eqn:E.
  - destruct (JS.is_space c) eqn:Hs.
    + split; [apply Nat.le_0_l | apply Nat.le_0_l].
    + pose proof (space_not_newline _ Hs) as Hn.
      rewrite !(kept_char _ _ Hn), !(kept_after_first_char _ _ Hn).
      split; [apply le_n_S|]; apply Nat.le_0_l.
  - destruct (Ascii.eqb c JS.LF) eqn:Hn.
    + apply Ascii.eqb_eq in Hn. subst c.
      rewrite !kept_newline, !kept_after_first_newline. auto.
    + rewrite !(kept_char _ _ Hn), !(kept_after_first_char _ _ Hn).
      split; [apply le_n_S|]; exact IH2.
Qed.

Lemma trimStart_kept s : kept (JS.trimStart s) <= kept s.
Proof.
  induction s as [|c s' IH]; [reflexivity|].
  cbn [JS.trimStart]. destruct (JS.is_space c); [|reflexivity].
  etransitivity; [exact IH | apply kept_tail].
Qed.

Lemma trim_kept s : kept (JS.trim s) <= kept s.
Proof.
  unfold JS.trim. etransitivity; [apply trimStart_kept | apply trimEnd_kept].
Qed.

Lemma head_lines_kept s : forall n,
  kept (JS.head_lines s n) <= n
  /\ kept_after_first (JS.head_lines s (S n)) <= n.
Proof.
  induction s as [|c s' IH]; intros n.
  - split; apply Nat.le_0_l.
  - split.
    + destruct n as [|n']; [apply Nat.le_0_l|]. cbn [JS.head_lines].
      destruct (Ascii.eqb c JS.LF) eqn:Hn.
      * apply Ascii.eqb_eq in Hn. subst c. rewrite kept_newline.
        destruct (IH n') as [H _]. lia.
      * rewrite (kept_char _ _ Hn). destruct (IH n') as [_ H]. lia.
    + cbn [JS.head_lines]. destruct (Ascii.eqb c JS.LF) eqn:Hn.
      * apply Ascii.eqb_eq in Hn. subst c. rewrite kept_after_first_newline.
        apply IH.
      * rewrite (kept_after_first_char _ _ Hn). apply IH.
Qed.

(** Of what [head -100] lets through, [glob] keeps at most 100 entries. *)
Lemma head_100_kept s : kept (JS.trim (JS.head_lines s 100)) <= 100.
Proof.
  etransitivity; [apply trim_kept | apply head_lines_kept].
Qed.

Lemma prefix_take n : forall s, String.prefix (JS.take n s) s = true.
Proof.
  induction n as [|n IH]; intros s; [destruct s; reflexivity|].
  destruct s as [|c s']; [reflexivity|]. cbn [JS.take]. simpl.
  destruct (ascii_dec c c); [apply IH | congruence].
Qed.

End Lines.

Section Shell.

Context `{rt : Runtime}.

Lemma length_append (a b : string) :
  String.length (a +:+ b) = String.length a + String.length b.
Proof. induction a; simpl; congruence. Qed.

Lemma exceeds_false maxBuffer s :
  exceeds maxBuffer s = false ->
  (N.of_nat (JS.byteLength s) <= maxBuffer)%N.
Proof. unfold exceeds. intros H. apply N.ltb_ge in H. exact H. Qed.

(** [execAsync] on a command that is not empty. *)
Lemma execAsync_run cmd maxBuffer w :
  cmd <> EmptyString ->
  execAsync (Some cmd) maxBuffer w
  = let p := fst (sh cmd (files w)) in
    let w' := set_files (snd (sh cmd (files w))) w in
    match exit_code p with
    | KillsAgent status => (Exit status, w')
    | NeverExits => (Hang, w')
    | Exits code =>
        if exceeds maxBuffer (p_stdout p) then
          (Throw (overflow "stdout" maxBuffer p), w')
        else if exceeds maxBuffer (p_stderr p) then
          (Throw (overflow "stderr" maxBuffer p), w')
        else if Nat.eqb code 0 then (Ok (p_stdout p, p_stderr p), w')
        else
          (Throw {| e_name := "Error";
                    e_message := "Command failed: " +:+ cmd +:+ JS.nl
                                 +:+ p_stderr p;
                    e_stack := EmptyString;
                    e_stdout := Some (p_stdout p);
                    e_stderr := Some (p_stderr p) |}, w')
    end.
Proof.
  intros Hne. unfold execAsync. destruct cmd as [|c cmd']; [congruence|].
  destruct (sh (String c cmd') (files w)). reflexivity.
Qed.

(** What the [catch] of [bash] makes of an error. *)
Lemma bash_catch cmd body error w w1 :
  body w = (Throw error, w1) ->
  try_catch body
    (fun error =>
       let msg := "Bash command failed: " +:+ e_message error in
       log T_error msg (Some (JObj (str_prop "command" (Some cmd)))) ;;;
       ret ("Error: " +:+ msg +:+ JS.nl +:+ "Output: "
            +:+ default EmptyString (e_stdout error) +:+ JS.nl
            +:+ default EmptyString (e_stderr error))) w
  = (Ok ("Error: " +:+ ("Bash command failed: " +:+ e_message error)
         +:+ JS.nl +:+ "Output: "
         +:+ default EmptyString (e_stdout error) +:+ JS.nl
         +:+ default EmptyString (e_stderr error)),
     logged T_error ("Bash command failed: " +:+ e_message error)
       (Some (JObj [("command", JStr cmd)])) w1).
Proof.
  intros E. rewrite (try_throw _ _ _ _ _ E). rewrite bind_log. reflexivity.
Qed.

(** [bash] on a command that is not empty, step by step. *)
Lemma bash_steps cmd w :
  cmd <> EmptyString ->
  let w0 := logged T_tool ("Executing bash: " +:+ cmd) None w in
  let p := fst (sh cmd (files w0)) in
  let w1 := set_files (snd (sh cmd (files w0))) w0 in
  let out := p_stdout p in
  let err := p_stderr p in
  let failed (error : JsError) :=
    (Ok ("Error: " +:+ ("Bash command failed: " +:+ e_message error)
         +:+ JS.nl +:+ "Output: "
         +:+ default EmptyString (e_stdout error) +:+ JS.nl
         +:+ default EmptyString (e_stderr error)),
     logged T_error ("Bash command failed: " +:+ e_message error)
       (Some (JObj [("command", JStr cmd)])) w1) in
  bash (Some cmd) w
  = match exit_code p with
    | KillsAgent status => (Exit status, w1)
    | NeverExits => (Hang, w1)
    | Exits code =>
        if exceeds BASH_MAX_BUFFER out then
          failed (overflow "stdout" BASH_MAX_BUFFER p)
        else if exceeds BASH_MAX_BUFFER err then
          failed (overflow "stderr" BASH_MAX_BUFFER p)
        else if Nat.eqb code 0 then
          (Ok (if JS.truthy (out +:+ err) then out +:+ err
               else "Command executed successfully"),
           logged T_tool "Bash completed"
             (Some (JObj [("command", JStr cmd);
                          ("outputLength",
                           JNum (String.length (out +:+ err)))])) w1)
        else
          failed {| e_name := "Error";
                    e_message := "Command failed: " +:+ cmd +:+ JS.nl +:+ err;
                    e_stack := EmptyString;
                    e_stdout := Some out;
                    e_stderr := Some err |}
    end.
Proof.
  intros Hne. cbv zeta. set (w0 := logged _ _ _ w).
  pose proof (execAsync_run cmd BASH_MAX_BUFFER w0 Hne) as Ex. cbv zeta in Ex.
  unfold bash. rewrite try_bind_log. fold w0. cbn [JS.str].
  destruct (exit_code (fst (sh cmd (files w0)))) as [code|status|].
  - destruct (exceeds BASH_MAX_BUFFER (p_stdout _)).
    { apply bash_catch. apply bind_throw. exact Ex. }
    destruct (exceeds BASH_MAX_BUFFER (p_stderr _)).
    { apply bash_catch. apply bind_throw. exact Ex. }
    destruct (Nat.eqb code 0).
    + rewrite (try_bind_ok _ _ _ _ _ _ Ex). rewrite try_bind_log, try_ret.
      reflexivity.
    + apply bash_catch. apply bind_throw. exact Ex.
  - apply try_exit, bind_exit. exact Ex.
  - apply try_hang, bind_hang. exact Ex.
Qed.

(** [bash] on the empty command: [exec] refuses it, no shell is
    started. *)
Lemma bash_empty w :
  bash (Some EmptyString) w
  = (Ok ("Error: " +:+ ("Bash command failed: "
                        +:+ e_message (type_error "file"))
         +:+ JS.nl +:+ "Output: " +:+ JS.nl),
     logged T_error ("Bash command failed: "
                     +:+ e_message (type_error "file"))
       (Some (JObj [("command", JStr EmptyString)]))
       (logged T_tool "Executing bash: " None w)).
Proof.
  unfold bash. rewrite try_bind_log.
  rewrite (bash_catch EmptyString _ (type_error "file")
             _ (logged T_tool "Executing bash: " None w))
    by (apply bind_throw; reflexivity).
  rewrite type_error_stdout, type_error_stderr. reflexivity.
Qed.

(** [bash] without a command: [exec] refuses it as well. *)
Lemma bash_undefined w :
  bash None w
  = (Ok ("Error: " +:+ ("Bash command failed: "
                        +:+ e_message (type_error "command"))
         +:+ JS.nl +:+ "Output: "
         +:+ default EmptyString (e_stdout (type_error "command")) +:+ JS.nl
         +:+ default EmptyString (e_stderr (type_error "command"))),
     logged T_error ("Bash command failed: "
                     +:+ e_message (type_error "command")) (Some (JObj []))
       (logged T_tool "Executing bash: undefined" None w)).
Proof.
  unfold bash. rewrite try_bind_log.
  rewrite (try_throw _ _ _ (type_error "command") (logged _ _ _ w))
    by (apply bind_throw; reflexivity).
  rewrite bind_log. reflexivity.
Qed.

Lemma glob_command_not_empty pattern : glob_command pattern <> EmptyString.
Proof. unfold glob_command. simpl. discriminate. Qed.

Lemma glob_catch body error w w1 :
  body w = (Throw error, w1) ->
  try_catch body
    (fun error =>
       let msg := "Glob failed: " +:+ toString error in
       log T_error msg None ;;; ret ("Error: " +:+ msg)) w
  = (Ok ("Error: " +:+ ("Glob failed: " +:+ toString error)),
     logged T_error ("Glob failed: " +:+ toString error) None w1).
Proof.
  intros E. rewrite (try_throw _ _ _ _ _ E). rewrite bind_log. reflexivity.
Qed.

(** [glob], step by step. *)
Lemma glob_steps pattern w :
  let w0 := logged T_tool ("Glob pattern: " +:+ JS.str pattern) None w in
  let cmd := glob_command pattern in
  let p := fst (sh cmd (files w0)) in
  let w1 := set_files (snd (sh cmd (files w0))) w0 in
  let entries :=
    List.filter JS.truthy (JS.split_lines (JS.trim (p_stdout p))) in
  let failed (error : JsError) :=
    (Ok ("Error: " +:+ ("Glob failed: " +:+ toString error)),
     logged T_error ("Glob failed: " +:+ toString error) None w1) in
  glob pattern w
  = match exit_code p with
    | KillsAgent status => (Exit status, w1)
    | NeverExits => (Hang, w1)
    | Exits code =>
        if exceeds DEFAULT_MAX_BUFFER (p_stdout p) then
          failed (overflow "stdout" DEFAULT_MAX_BUFFER p)
        else if exceeds DEFAULT_MAX_BUFFER (p_stderr p) then
          failed (overflow "stderr" DEFAULT_MAX_BUFFER p)
        else if Nat.eqb code 0 then
          (Ok (JS.join_lines entries),
           logged T_tool ("Found " +:+ JS.show (length entries)
                          +:+ " files matching " +:+ JS.str pattern) None w1)
        else
          failed {| e_name := "Error";
                    e_message := "Command failed: " +:+ cmd +:+ JS.nl
                                 +:+ p_stderr p;
                    e_stack := EmptyString;
                    e_stdout := Some (p_stdout p);
                    e_stderr := Some (p_stderr p) |}
    end.
Proof.
  cbv zeta. set (w0 := logged _ _ _ w).
  pose proof (execAsync_run (glob_command pattern) DEFAULT_MAX_BUFFER w0
                (glob_command_not_empty pattern)) as Ex.
  cbv zeta in Ex.
  unfold glob. rewrite try_bind_log. fold w0.
  destruct (exit_code (fst (sh (glob_command pattern) (files w0))))
    as [code|status|].
  - destruct (exceeds DEFAULT_MAX_BUFFER (p_stdout _)).
    { apply glob_catch. apply bind_throw. exact Ex. }
    destruct (exceeds DEFAULT_MAX_BUFFER (p_stderr _)).
    { apply glob_catch. apply bind_throw. exact Ex. }
    destruct (Nat.eqb code 0).
    + rewrite (try_bind_ok _ _ _ _ _ _ Ex). cbn [fst].
      rewrite try_bind_log, try_ret. reflexivity.
    + apply glob_catch. apply bind_throw. exact Ex.
  - apply try_exit, bind_exit. exact Ex.
  - apply try_hang, bind_hang. exact Ex.
Qed.

(** [glob], when the command exits with 0 within the default buffer:
    the entries are the non-empty lines of the trimmed output. *)
Lemma glob_ok pattern w :
  let w0 := logged T_tool ("Glob pattern: " +:+ JS.str pattern) None w in
  let p := fst (sh (glob_command pattern) (files w0)) in
  exceeds DEFAULT_MAX_BUFFER (p_stdout p)
  || exceeds DEFAULT_MAX_BUFFER (p_stderr p) = false ->
  exit_code p = 0 ->
  exists w',
    glob pattern w
    = (Ok (JS.join_lines
             (List.filter JS.truthy (JS.split_lines (JS.trim (p_stdout p))))),
       w').
Proof.
  cbv zeta. intros Hb Hx. rewrite glob_steps. cbv zeta. rewrite Hx.
  apply orb_false_iff in Hb. destruct Hb as [-> ->]. cbn [Nat.eqb]. eauto.
Qed.

(** When the shell runs the command as it is meant, the output being what
    [head -100] lets through of what [find] prints, [glob] returns at
    most 100 entries. *)
Lemma glob_capped pattern w found :
  let w0 := logged T_tool ("Glob pattern: " +:+ JS.str pattern) None w in
  let p := fst (sh (glob_command pattern) (files w0)) in
  p_stdout p = JS.head_lines found 100 ->
  exceeds DEFAULT_MAX_BUFFER (p_stdout p)
  || exceeds DEFAULT_MAX_BUFFER (p_stderr p) = false ->
  exit_code p = 0 ->
  exists entries w',
    glob pattern w = (Ok (JS.join_lines entries), w')
    /\ length entries <= 100.
Proof.
  cbv zeta. intros Hout Hb Hx.
  destruct (glob_ok pattern w Hb Hx) as (w' & E).
  eexists _, w'. split; [exact E|].
  rewrite Hout. apply head_100_kept.
Qed.

(** When nothing is printed, [glob] returns the empty text. *)
Lemma glob_no_match pattern w :
  let w0 := logged T_tool ("Glob pattern: " +:+ JS.str pattern) None w in
  let p := fst (sh (glob_command pattern) (files w0)) in
  p_stdout p = EmptyString ->
  exceeds DEFAULT_MAX_BUFFER (p_stderr p) = false ->
  exit_code p = 0 ->
  exists w', glob pattern w = (Ok EmptyString, w').
Proof.
  cbv zeta. intros Hout Hb Hx.
  destruct (glob_ok pattern w) as (w' & E); [|exact Hx|].
  - rewrite Hout, Hb. reflexivity.
  - exists w'. rewrite E, Hout. reflexivity.
Qed.

(** What a turn makes of a response that holds a given call: nothing is
    thrown; unless a command of a call of the response cuts the turn
    short, the call has been answered by what the tool returned, and the
    loop goes on with the response and the results appended, or ends
    when the response says [end_turn]. *)
Lemma loop_body_call claudeMd st response id name input w :
  messages_create (length (requests w)) (request_of claudeMd st)
  = inr response ->
  In (ToolUse id name input) (content response) ->
  match fst (loop_body claudeMd st w) with
  | Ok st' =>
      exists rs text v v',
        call_tool name input v = (Ok text, v')
        /\ In {| tool_use_id := id; tr_content := text |} rs
        /\ answers (content response) rs
        /\ st' = if String.eqb (stop_reason response) "end_turn" then
                   {| messages := messages st;
                      continueLoop := false;
                      iterationCount := S (iterationCount st) |}
                 else
                   {| messages := messages st
                                  ++ [Assistant (content response);
                                      UserResults rs];
                      continueLoop := continueLoop st;
                      iterationCount := S (iterationCount st) |}
  | Throw _ => False
  | r => ended_by (fun cmd => In cmd (commands_of (content response))) r
  end.
Proof.
  intros Hm Hin. destruct (loop_body_spec claudeMd st w) as [_ Hb].
  rewrite Hm in Hb.
  destruct (fst (loop_body claudeMd st w)) as [st'|e|c|]; auto.
  destruct Hb as (rs & -> & _ & Ha).
  destruct (answers_In _ _ Ha _ _ _ Hin) as (text & v & v' & Hc & Hi).
  exists rs, text, v, v'. split; [exact Hc|]. split; [exact Hi|].
  split; [exact Ha|].
  unfold next_state, stops. rewrite (In_has_tool_use _ _ _ _ Hin).
  cbn [negb]. rewrite orb_false_r. reflexivity.
Qed.

End Shell.

(** C8 as stated fails on a command that prints nothing: the tool then
    returns a fixed sentence, not the (empty) combined output. *)
Lemma bash_silent_command_counterexample :
  let w := Sample.empty_world in
  let p := fst (@sh Sample.offline "true"
                    (files (@logged Sample.offline T_tool
                                    "Executing bash: true" None w))) in
  exit_code p = 0
  /\ fst (@bash Sample.offline (Some "true") w)
     = Ok "Command executed successfully"
  /\ "Command executed successfully" <> p_stdout p +:+ p_stderr p.
Proof. vm_compute. repeat split. discriminate. Qed.

(** C8, amended.  For a command that is not empty and that exits: within
    the cap of ten megabytes on each output and with exit code 0, the
    shell tool returns the standard output followed by the standard
    error, or the sentence [Command executed successfully] when both are
    empty; with another exit code it returns the error text that carries
    the command, the standard error and both outputs; when an output
    overruns the cap it returns the error text that names the stream,
    with what was captured of both outputs.  The empty command is
    refused and no shell is started.  The tool throws nothing and is cut
    short only by its own command, when that ends the agent or never
    ends.  In the dispatch, the text that the tool returned is pushed as
    the result of the call, under the id of the call; and the turn then
    goes on: the response and the results are appended to the transcript
    and [continueLoop] is left as it was, unless the response says
    [end_turn], which ends the loop. *)
Theorem bash_result `{rt : Runtime} :
  (forall cmd (code : nat) w,
     let p := fst (sh cmd (files (logged T_tool ("Executing bash: " +:+ cmd)
                                         None w))) in
     let out := p_stdout p in
     let err := p_stderr p in
     cmd <> EmptyString ->
     exit_code p = code ->
     (exceeds BASH_MAX_BUFFER out = false ->
      exceeds BASH_MAX_BUFFER err = false ->
      code = 0 ->
      fst (bash (Some cmd) w)
      = Ok (if JS.truthy (out +:+ err) then out +:+ err
            else "Command executed successfully")
      /\ (N.of_nat (JS.byteLength out) <= BASH_MAX_BUFFER)%N
      /\ (N.of_nat (JS.byteLength err) <= BASH_MAX_BUFFER)%N)
     /\ (exceeds BASH_MAX_BUFFER out = false ->
         exceeds BASH_MAX_BUFFER err = false ->
         code <> 0 ->
         fst (bash (Some cmd) w)
         = Ok ("Error: " +:+ ("Bash command failed: "
                              +:+ ("Command failed: " +:+ cmd +:+ JS.nl
                                   +:+ err))
               +:+ JS.nl +:+ "Output: " +:+ out +:+ JS.nl +:+ err))
     /\ (exceeds BASH_MAX_BUFFER out || exceeds BASH_MAX_BUFFER err = true ->
         exists stream out' err',
           (stream = "stdout" /\ exceeds BASH_MAX_BUFFER out = true
            \/ stream = "stderr" /\ exceeds BASH_MAX_BUFFER err = true)
           /\ String.prefix out' out = true
           /\ String.prefix err' err = true
           /\ fst (bash (Some cmd) w)
              = Ok ("Error: " +:+ ("Bash command failed: "
                                   +:+ (stream +:+ " maxBuffer length exceeded"))
                    +:+ JS.nl +:+ "Output: " +:+ out' +:+ JS.nl +:+ err')))
  /\ (forall w,
        bash (Some EmptyString) w
        = (Ok ("Error: " +:+ ("Bash command failed: "
                              +:+ e_message (type_error "file"))
               +:+ JS.nl +:+ "Output: " +:+ JS.nl),
           logged T_error ("Bash command failed: "
                           +:+ e_message (type_error "file"))
             (Some (JObj [("command", JStr EmptyString)]))
             (logged T_tool "Executing bash: " None w)))
  /\ (forall command, settles (fun cmd => command = Some cmd) (bash command))
  /\ (forall id input acc v text v',
        bash (input !! "command")
          (logged T_tool "Tool call: bash" (Some (input_json input)) v)
        = (Ok text, v') ->
        process_block (ToolUse id "bash" input) acc v
        = (Ok (true, snd acc ++ [{| tool_use_id := id;
                                    tr_content := text |}]), v'))
  /\ (forall claudeMd st response id input w,
        messages_create (length (requests w)) (request_of claudeMd st)
        = inr response ->
        In (ToolUse id "bash" input) (content response) ->
        match fst (loop_body claudeMd st w) with
        | Ok st' =>
            exists rs text v v',
              bash (input !! "command") v = (Ok text, v')
              /\ In {| tool_use_id := id; tr_content := text |} rs
              /\ answers (content response) rs
              /\ st' = if String.eqb (stop_reason response) "end_turn" then
                         {| messages := messages st;
                            continueLoop := false;
                            iterationCount := S (iterationCount st) |}
                       else
                         {| messages := messages st
                                        ++ [Assistant (content response);
                                            UserResults rs];
                            continueLoop := continueLoop st;
                            iterationCount := S (iterationCount st) |}
        | Throw _ => False
        | r => ended_by (fun cmd => In cmd (commands_of (content response))) r
        end).
Proof.
  split; [|split; [|split; [|split]]].
  - intros cmd code w. cbv zeta. intros Hne Hx.
    pose proof (bash_steps cmd w Hne) as E. cbv zeta in E.
    rewrite Hx in E. rewrite E. clear E.
    set (p := fst (sh cmd _)).
    split; [|split].
    + intros Ho He ->. rewrite Ho, He. cbn [Nat.eqb fst].
      split; [reflexivity|]. split; apply exceeds_false; assumption.
    + intros Ho He Hc. rewrite Ho, He.
      destruct (Nat.eqb code 0) eqn:H0; [apply Nat.eqb_eq in H0; lia|].
      reflexivity.
    + intros Hb.
      destruct (exceeds BASH_MAX_BUFFER (p_stdout p)) eqn:Ho.
      * exists "stdout", (JS.take (N.to_nat BASH_MAX_BUFFER) (p_stdout p)),
               (JS.take (N.to_nat BASH_MAX_BUFFER) (p_stderr p)).
        split; [left; auto|].
        split; [apply prefix_take|]. split; [apply prefix_take|].
        reflexivity.
      * cbn [orb] in Hb. rewrite Hb.
        exists "stderr", (JS.take (N.to_nat BASH_MAX_BUFFER) (p_stdout p)),
               (JS.take (N.to_nat BASH_MAX_BUFFER) (p_stderr p)).
        split; [right; auto|].
        split; [apply prefix_take|]. split; [apply prefix_take|].
        reflexivity.
  - apply bash_empty.
  - apply settles_bash.
  - intros id input acc v text v' E.
    apply process_block_answer. exact E.
  - intros claudeMd st response id input w Hm Hin.
    exact (loop_body_call claudeMd st response id "bash" input w Hm Hin).
Qed.

(** C7, where the code departs from the claim: the pattern is pasted
    between single quotes into a shell command, and a pattern that holds
    a single quote ends the quotation.  With [escaping_pattern] the
    command is a list of three commands of which only the last is piped
    through [head -100], and [glob] returns 102 lines. *)
Theorem glob_escaping_pattern :
  glob_command (Some Sample.escaping_pattern)
  = "find . -path '' ; seq 101 ; echo '' -type f 2>/dev/null | head -100"
  /\ exists text,
       fst (@glob Sample.injected (Some Sample.escaping_pattern)
                  Sample.empty_world) = Ok text
       /\ length (JS.split_lines text) = 102.
Proof.
  split; [reflexivity|]. eexists. split; vm_compute; reflexivity.
Qed.

Lemma bash_result_witness :
  let w := Sample.empty_world in
  fst (@bash Sample.failing (Some "nope") w)
  = Ok ("Error: Bash command failed: Command failed: nope" +:+ JS.nl
        +:+ "sh: 1: nope: not found" +:+ JS.nl
        +:+ JS.nl +:+ "Output: " +:+ JS.nl
        +:+ "sh: 1: nope: not found" +:+ JS.nl).
Proof.
  apply (proj1 (proj2 (proj1 (@bash_result Sample.failing)
                         "nope" 127 Sample.empty_world
                         ltac:(discriminate) eq_refl))).
  - vm_compute. reflexivity.
  - vm_compute. reflexivity.
  - discriminate.
Defined.

(** A turn in which the command of the call fails: the error text is the
    result of the call, and the loop goes on. *)
Example failing_command_turn :
  let st := {| messages := [UserText "go"]; continueLoop := true;
               iterationCount := 0 |} in
  fst (@loop_body Sample.failing EmptyString st Sample.empty_world)
  = Ok {| messages :=
            [UserText "go";
             Assistant [ToolUse "toolu_1" "bash" {[ "command" := "nope" ]}];
             UserResults
               [{| tool_use_id := "toolu_1";
                   tr_content :=
                     "Error: Bash command failed: Command failed: nope"
                     +:+ JS.nl +:+ "sh: 1: nope: not found" +:+ JS.nl
                     +:+ JS.nl +:+ "Output: " +:+ JS.nl
                     +:+ "sh: 1: nope: not found" +:+ JS.nl |}]];
          continueLoop := true;
          iterationCount := 1 |}.
Proof. vm_compute. reflexivity. Qed.

(** C9 as stated fails when the response that calls the unknown tool
    says [end_turn]: the call is answered, but the loop ends and the
    answer is never sent. *)
Lemma unknown_tool_end_turn_counterexample :
  let st := {| messages := [UserText "go"]; continueLoop := true;
               iterationCount := 0 |} in
  let r := @conversation_loop Sample.rushed EmptyString st
             Sample.empty_world in
  @messages_create Sample.rushed 0 (@request_of Sample.rushed EmptyString st)
  = inr {| content := [ToolUse "toolu_1" "deploy" ∅];
           stop_reason := "end_turn" |}
  /\ known_tool "deploy" = false
  /\ fst r = Ok {| messages := [UserText "go"]; continueLoop := false;
                   iterationCount := 1 |}
  /\ length (requests (snd r)) = 1
  /\ fst (@main Sample.rushed Sample.empty_world) = 0
  /\ length (requests (snd (@main Sample.rushed Sample.empty_world))) = 1.
Proof. vm_compute. repeat split. Qed.

(** C9, amended: the call of a tool that is none of the five is
    answered, under the id of the call, by the text [Unknown tool: name];
    nothing is thrown.  The turn then ends as any turn with a tool call
    does: when the response says [end_turn] the loop ends and the
    results are not sent; otherwise the response and the results (this
    one among them) are appended to the transcript and [continueLoop] is
    left as it was; and the turn is cut short only when a command of
    another call of the response ends the agent or never ends. *)
Theorem unknown_tool_reported `{rt : Runtime}
    id name input claudeMd st response w :
  known_tool name = false ->
  messages_create (length (requests w)) (request_of claudeMd st)
  = inr response ->
  In (ToolUse id name input) (content response) ->
  let answer := {| tool_use_id := id;
                   tr_content := "Unknown tool: " +:+ name |} in
  (forall acc v,
     process_block (ToolUse id name input) acc v
     = (Ok (true, snd acc ++ [answer]),
        logged T_tool ("Tool call: " +:+ name) (Some (input_json input)) v))
  /\ match fst (loop_body claudeMd st w) with
     | Ok st' =>
         exists rs,
           In answer rs
           /\ answers (content response) rs
           /\ st' = if String.eqb (stop_reason response) "end_turn" then
                      {| messages := messages st;
                         continueLoop := false;
                         iterationCount := S (iterationCount st) |}
                    else
                      {| messages := messages st
                                     ++ [Assistant (content response);
                                         UserResults rs];
                         continueLoop := continueLoop st;
                         iterationCount := S (iterationCount st) |}
     | Throw _ => False
     | r => ended_by (fun cmd => In cmd (commands_of (content response))) r
     end.
Proof.
  intros Hk Hm Hin answer. split.
  - intros acc v. apply process_block_unknown. exact Hk.
  - pose proof (loop_body_call claudeMd st response id name input w Hm Hin)
      as Hb.
    destruct (fst (loop_body claudeMd st w)) as [st'|e|c|]; auto.
    destruct Hb as (rs & text & v & v' & Hc & Hi & Ha & ->).
    exists rs. split; [|split; [exact Ha | reflexivity]].
    rewrite (call_tool_unknown _ _ _ Hk) in Hc. injection Hc as <- _.
    exact Hi.
Qed.

Lemma unknown_tool_reported_witness :
  exists rs,
    fst (@loop_body Sample.online EmptyString
           {| messages := [UserText "go"]; continueLoop := true;
              iterationCount := 0 |} Sample.empty_world)
    = Ok {| messages := [UserText "go";
                         Assistant [Text "Deploying.";
                                    ToolUse "toolu_1" "deploy" ∅];
                         UserResults rs];
            continueLoop := true;
            iterationCount := 1 |}
    /\ In {| tool_use_id := "toolu_1";
             tr_content := "Unknown tool: deploy" |} rs.
Proof.
  pose proof (@unknown_tool_reported Sample.online "toolu_1" "deploy" ∅
                EmptyString
                {| messages := [UserText "go"]; continueLoop := true;
                   iterationCount := 0 |}
                {| content := [Text "Deploying.";
                               ToolUse "toolu_1" "deploy" ∅];
                   stop_reason := "tool_use" |}
                Sample.empty_world eq_refl eq_refl
                (or_intror (or_introl eq_refl))) as H.
  cbv zeta in H. destruct H as [_ H].
  assert (E : exists st',
             fst (@loop_body Sample.online EmptyString
                    {| messages := [UserText "go"]; continueLoop := true;
                       iterationCount := 0 |} Sample.empty_world) = Ok st')
    by (vm_compute; eauto).
  destruct E as [st' E]. rewrite E in H. rewrite E.
  destruct H as (rs & Hi & _ & ->). exists rs.
  split; [reflexivity | exact Hi].
Defined.

(** ** The claims about the loop and the final report *)

(** C1: the ceiling is 20.  A turn of the loop raises the iteration
    count by one, so the count never decreases.  Whatever the number of
    turns that the recursion is allowed, and whatever the endpoint
    answers, the loop sends from a count [c] at most
    [MAX_ITERATIONS - c] completion requests, none once the count has
    reached the ceiling, and the count it returns is [c] plus the number
    of requests sent; so the turns allowed to [conversation_loop] are
    never what ends it, and it satisfies the equation of the [while]
    statement.  A whole run sends at most [MAX_ITERATIONS] requests, and
    the iteration count written in the final report of a completed run
    is the number of requests sent.  (The report of a failed run holds
    no count.) *)
Theorem iteration_ceiling `{rt : Runtime} :
  MAX_ITERATIONS = 20
  /\ (forall claudeMd st w,
        match fst (loop_body claudeMd st w) with
        | Ok st' => iterationCount st' = S (iterationCount st)
        | _ => True
        end)
  /\ (forall fuel claudeMd st w,
        exists new,
          requests (snd (while_loop fuel claudeMd st w)) = requests w ++ new
          /\ length new <= MAX_ITERATIONS - iterationCount st
          /\ match fst (while_loop fuel claudeMd st w) with
             | Ok st' => iterationCount st' = iterationCount st + length new
             | Throw e => rejected w new e
             | r => cut_short w new r
             end)
  /\ (forall extra claudeMd st w,
        while_loop (MAX_ITERATIONS - iterationCount st + extra) claudeMd st w
        = conversation_loop claudeMd st w)
  /\ (forall claudeMd st w,
        conversation_loop claudeMd st w
        = if loop_condition st
          then bind (loop_body claudeMd st) (conversation_loop claudeMd) w
          else ret st w)
  /\ (forall w,
        exists new,
          requests (snd (implementFeature w)) = requests w ++ new
          /\ length new <= MAX_ITERATIONS
          /\ (ends_unconfigured (fst (implementFeature w)) new
              \/ ends_completed (fst (implementFeature w))
                                (snd (implementFeature w)) new
              \/ ends_failed (fst (implementFeature w)) w
                             (snd (implementFeature w)) new
              \/ cut_short w new (fst (implementFeature w)))).
Proof.
  split; [reflexivity|]. split; [|split; [|split; [|split]]].
  - intros claudeMd st w.
    destruct (loop_body claudeMd st w) as [[st'|e|c|] w'] eqn:E; cbn [fst]; auto.
    exact (loop_body_count _ _ _ _ _ E).
  - intros fuel claudeMd st w.
    destruct (while_loop_spec claudeMd fuel st w)
      as (new & H1 & H2 & _ & _ & _ & H3).
    exists new. auto.
  - intros extra claudeMd st w. unfold conversation_loop.
    apply while_loop_fuel; lia.
  - apply conversation_loop_unfold.
  - intros w.
    destruct (implementFeature_spec w) as (claudeMd & new & H1 & H2 & _ & _ & H3).
    exists new. auto.
Qed.

(** The ceiling is the work of the condition of the loop, not of the
    turns allowed to the recursion: with 25 turns allowed and an endpoint
    that never stops, 20 requests are sent. *)
Example ceiling_with_turns_to_spare :
  let st := {| messages := [UserText "go"]; continueLoop := true;
               iterationCount := 0 |} in
  length (requests (snd (@while_loop Sample.busy 25 EmptyString st
                           Sample.empty_world))) = 20.
Proof. vm_compute. reflexivity. Qed.




(** The two requests of a run in which the first response calls an
    unknown tool: the second carries the response and the result. *)
Example transcript_of_a_run :
  map req_messages
      (requests (snd (@implementFeature Sample.online Sample.empty_world)))
  = let prompt := UserText (@userPrompt Sample.online "add a clock") in
    [ [prompt];
      [prompt;
       Assistant [Text "Deploying."; ToolUse "toolu_1" "deploy" ∅];
       UserResults [{| tool_use_id := "toolu_1";
                       tr_content := "Unknown tool: deploy" |}]] ].
Proof. vm_compute. reflexivity. Qed.

(** C6 as stated fails: the snapshot that the fatal handler writes holds
    the entries and the message of the error, and no iteration count. *)
Lemma fatal_snapshot_counterexample :
  let r := @implementFeature Sample.offline Sample.empty_world in
  fst r = Ok 1
  /\ files (snd r) !! LOG_JSON = Some "{logs: 7, error: 503}"
  /\ forall n message,
       files (snd r) !! LOG_JSON
       <> Some (@JSON_stringify_report Sample.offline
                  {| rep_logs := logs (snd r);
                     rep_totalIterations := Some n;
                     rep_error := message |}).
Proof.
  split; [vm_compute; reflexivity|]. split; [vm_compute; reflexivity|].
  intros n message. vm_compute. discriminate.
Qed.

Lemma rejected_somewhere `{rt : Runtime} w new error :
  rejected w new error -> exists n req, messages_create n req = inl error.
Proof. intros (sent & req & _ & H). eauto. Qed.

(** C6, amended: when a run ends in the fatal handler, which it does
    for a rejected completion request, the error summary holds the
    contents of the error entries and of no other entry, and the snapshot
    holds every entry logged so far, the last of which is the entry of
    the fatal error, together with the message of the error; the
    iteration count is in the snapshot of a completed run only. *)
Theorem fatal_failure_artifacts `{rt : Runtime} w :
  fst (implementFeature w) = Ok 1 ->
  let w' := snd (implementFeature w) in
  exists error,
    (exists n req, messages_create n req = inl error)
    /\ files w' !! ERROR_SUMMARY
       = Some (JS.join_lines
                 (map log_content (List.filter is_error (logs w'))))
    /\ files w' !! LOG_JSON
       = Some (JSON_stringify_report
                 {| rep_logs := logs w';
                    rep_totalIterations := None;
                    rep_error := Some (e_message error) |})
    /\ exists before l, logs w' = before ++ [l] /\ fatal_entry error l.
Proof.
  intros Hr w'.
  destruct (implementFeature_spec w) as (claudeMd & new & _ & _ & _ & _ & H).
  destruct H as [[H _]|[[H _]|[[_ H]|H]]].
  - rewrite Hr in H. discriminate.
  - rewrite Hr in H. discriminate.
  - destruct H as (error & Hrej & H). exists error.
    split; [exact (rejected_somewhere _ _ _ Hrej) | exact H].
  - destruct H as (sent & req & response & _ & _ & H).
    rewrite Hr in H. destruct H.
Qed.

Lemma fatal_failure_artifacts_witness :
  let w' := snd (@implementFeature Sample.offline Sample.empty_world) in
  exists error,
    (exists n req, @messages_create Sample.offline n req = inl error)
    /\ files w' !! ERROR_SUMMARY
       = Some (JS.join_lines
                 (map log_content (List.filter is_error (logs w'))))
    /\ files w' !! LOG_JSON
       = Some (@JSON_stringify_report Sample.offline
                 {| rep_logs := logs w';
                    rep_totalIterations := None;
                    rep_error := Some (e_message error) |})
    /\ exists before l, logs w' = before ++ [l] /\ fatal_entry error l.
Proof.
  apply (@fatal_failure_artifacts Sample.offline Sample.empty_world).
  vm_compute. reflexivity.
Defined.

(** * Further properties of the code *)

(** ** The array [logs] only grows *)

Section Appends.

Context `{rt : Runtime}.

Lemma appends_ret {A} (a : A) : appends (ret a).
Proof. intros w. exists []. simpl. rewrite app_nil_r. reflexivity. Qed.

Lemma appends_throw {A} e : appends (@throw A e).
Proof. intros w. exists []. simpl. rewrite app_nil_r. reflexivity. Qed.

Lemma appends_process_exit {A} c : appends (@process_exit A c).
Proof. intros w. exists []. simpl. rewrite app_nil_r. reflexivity. Qed.

Lemma appends_log type content metadata : appends (log type content metadata).
Proof. intros w. rewrite log_ok. simpl. eauto. Qed.

Lemma appends_bind {A B} (m : M A) (k : A -> M B) :
  appends m -> (forall a, appends (k a)) -> appends (bind m k).
Proof.
  intros Hm Hk w. unfold bind. destruct (Hm w) as [n1 H1].
  destruct (m w) as [[a|e|c|] w1]; simpl in *; eauto.
  destruct (Hk a w1) as [n2 H2]. exists (n1 ++ n2).
  rewrite H2, H1, app_assoc. reflexivity.
Qed.

Lemma appends_try_catch {A} (body : M A) (handler : JsError -> M A) :
  appends body -> (forall e, appends (handler e)) ->
  appends (try_catch body handler).
Proof.
  intros Hb Hh w. unfold try_catch. destruct (Hb w) as [n1 H1].
  destruct (body w) as [[a|e|c|] w1]; simpl in *; eauto.
  destruct (Hh e w1) as [n2 H2]. exists (n1 ++ n2).
  rewrite H2, H1, app_assoc. reflexivity.
Qed.

Lemma appends_if {A} (b : bool) (m1 m2 : M A) :
  appends m1 -> appends m2 -> appends (if b then m1 else m2).
Proof. destruct b; auto. Qed.

Lemma appends_same_logs {A} (m : M A) :
  (forall w, logs (snd (m w)) = logs w) -> appends m.
Proof. intros H w. exists []. rewrite H, app_nil_r. reflexivity. Qed.

Lemma appends_readFileSync p : appends (readFileSync p).
Proof.
  apply appends_same_logs. intros w. unfold readFileSync.
  destruct p as [f|]; [destruct (files w !! resolve f)|]; reflexivity.
Qed.

Lemma appends_writeFileSync p data : appends (writeFileSync p data).
Proof.
  apply appends_same_logs. intros w. unfold writeFileSync.
  destruct p as [f|]; [|reflexivity].
  destruct (writable (resolve f)); [|reflexivity].
  destruct (torn (resolve f) data); reflexivity.
Qed.

Lemma appends_mkdir_dirname p : appends (mkdir_dirname p).
Proof.
  apply appends_same_logs. intros w. unfold mkdir_dirname.
  destruct p as [f|]; [destruct (mkdir_ok (dirname f))|]; reflexivity.
Qed.

Lemma appends_length_of v : appends (length_of v).
Proof.
  apply appends_same_logs. intros w. unfold length_of.
  destruct v; reflexivity.
Qed.

Lemma appends_execAsync command maxBuffer :
  appends (execAsync command maxBuffer).
Proof.
  apply appends_same_logs. intros w. unfold execAsync.
  destruct command as [cmd|]; [|reflexivity].
  destruct cmd as [|c cmd']; [reflexivity|].
  destruct (sh (String c cmd') (files w)) as [p f'].
  destruct (exit_code p) as [code|status|]; try reflexivity.
  destruct (exceeds maxBuffer (p_stdout p)); [reflexivity|].
  destruct (exceeds maxBuffer (p_stderr p)); [reflexivity|].
  destruct (Nat.eqb code 0); reflexivity.
Qed.

Lemma appends_create req : appends (create req).
Proof.
  apply appends_same_logs. intros w. unfold create.
  destruct (messages_create (length (requests w)) req); reflexivity.
Qed.

Lemma appends_get_logs : appends get_logs.
Proof. apply appends_same_logs. reflexivity. Qed.

End Appends.

Create HintDb appending.

#[export] Hint Resolve appends_ret appends_throw appends_process_exit
  appends_log appends_bind appends_try_catch appends_if appends_readFileSync
  appends_writeFileSync appends_mkdir_dirname appends_length_of
  appends_execAsync appends_create appends_get_logs : appending.

Section AppendsProgram.

Context `{rt : Runtime}.

Lemma appends_read p : appends (read p).
Proof. unfold read. auto 20 with appending. Qed.

Lemma appends_write p c : appends (write p c).
Proof. unfold write. auto 20 with appending. Qed.

Lemma appends_edit p o n : appends (edit p o n).
Proof. unfold edit. auto 20 with appending. Qed.

Lemma appends_bash c : appends (bash c).
Proof. unfold bash. auto 20 with appending. Qed.

Lemma appends_glob p : appends (glob p).
Proof. unfold glob. auto 20 with appending. Qed.

Lemma appends_call_tool name input : appends (call_tool name input).
Proof.
  unfold call_tool.
  repeat apply appends_if;
    auto using appends_read, appends_write, appends_edit, appends_bash,
               appends_glob, appends_ret.
Qed.

Lemma appends_process_block block acc : appends (process_block block acc).
Proof.
  destruct block; cbn [process_block];
    auto 20 using appends_call_tool with appending.
Qed.

Lemma appends_process_content blocks : forall acc,
  appends (process_content blocks acc).
Proof.
  induction blocks as [|block rest IH]; intros acc; cbn [process_content].
  - apply appends_ret.
  - apply appends_bind; [apply appends_process_block | exact IH].
Qed.

Lemma appends_loop_body claudeMd st : appends (loop_body claudeMd st).
Proof.
  unfold loop_body. auto 20 using appends_process_content with appending.
Qed.

Lemma appends_while_loop claudeMd fuel : forall st,
  appends (while_loop fuel claudeMd st).
Proof.
  induction fuel as [|fuel IH]; intros st; cbn [while_loop];
    apply appends_if; auto using appends_loop_body with appending.
Qed.

Lemma appends_read_claude_md : appends read_claude_md.
Proof.
  intros w. unfold read_claude_md. destruct (appends_read (Some "CLAUDE.md") w)
    as [n1 H1].
  destruct (read (Some "CLAUDE.md") w) as [[c|e|c|] w1]; simpl in H1.
  - unfold try_catch. rewrite bind_log. simpl. exists (n1 ++ [entry_at
      T_system "Found and read CLAUDE.md" None w1]).
    rewrite H1, app_assoc. reflexivity.
  - rewrite bind_log. simpl. exists (n1 ++ [entry_at
      T_system "No CLAUDE.md found" None w1]).
    rewrite H1, app_assoc. reflexivity.
  - simpl. eauto.
  - simpl. eauto.
Qed.

Lemma appends_implementFeature : appends implementFeature.
Proof.
  unfold implementFeature, conversation_loop.
  auto 30 using appends_read_claude_md, appends_while_loop with appending.
Qed.

End AppendsProgram.

(** X1: no entry of the array [logs] is ever changed or removed: after a
    call of a tool, known or not and with whatever input, and after a
    whole run, the array is what it was followed by new entries, and a
    call of [log] adds exactly one entry, of the kind and content it was
    given. *)
Theorem audit_log_append_only `{rt : Runtime} :
  (forall type content metadata w,
     exists e,
       logs (snd (log type content metadata w)) = logs w ++ [e]
       /\ log_type e = type /\ log_content e = content
       /\ log_metadata e = metadata)
  /\ (forall name input w,
        exists new, logs (snd (call_tool name input w)) = logs w ++ new)
  /\ (forall w, exists new, logs (snd (implementFeature w)) = logs w ++ new).
Proof.
  split; [|split].
  - intros type content metadata w. rewrite log_ok.
    exists (entry_at type content metadata w). simpl. auto.
  - intros name input. apply appends_call_tool.
  - apply appends_implementFeature.
Qed.

(** ** The files that the file tools leave alone *)

Section Keeps.

Context `{rt : Runtime}.

Variable S : string -> Prop.
Hypothesis not_the_log : forall g, S g -> g <> LOG_FILE.

Lemma keeps_ret {A} (a : A) : keeps S (ret a).
Proof. intros w g _. reflexivity. Qed.

Lemma keeps_log type content metadata : keeps S (log type content metadata).
Proof.
  intros w g Hg. rewrite log_ok. apply logged_files_other. auto.
Qed.

Lemma keeps_bind {A B} (m : M A) (k : A -> M B) :
  keeps S m -> (forall a, keeps S (k a)) -> keeps S (bind m k).
Proof.
  intros Hm Hk w g Hg. unfold bind. specialize (Hm w g Hg).
  destruct (m w) as [[a|e|c|] w1]; simpl in *; auto.
  rewrite (Hk a w1 g Hg). exact Hm.
Qed.

Lemma keeps_try_catch {A} (body : M A) (handler : JsError -> M A) :
  keeps S body -> (forall e, keeps S (handler e)) ->
  keeps S (try_catch body handler).
Proof.
  intros Hb Hh w g Hg. unfold try_catch. specialize (Hb w g Hg).
  destruct (body w) as [[a|e|c|] w1]; simpl in *; auto.
  rewrite (Hh e w1 g Hg). exact Hb.
Qed.

Lemma keeps_if {A} (b : bool) (m1 m2 : M A) :
  keeps S m1 -> keeps S m2 -> keeps S (if b then m1 else m2).
Proof. destruct b; auto. Qed.

Lemma keeps_readFileSync p : keeps S (readFileSync p).
Proof.
  intros w g _. unfold readFileSync.
  destruct p as [f|]; [destruct (files w !! resolve f)|]; reflexivity.
Qed.

Lemma keeps_mkdir_dirname p : keeps S (mkdir_dirname p).
Proof.
  intros w g _. unfold mkdir_dirname.
  destruct p as [f|]; [destruct (mkdir_ok (dirname f))|]; reflexivity.
Qed.

Lemma keeps_length_of v : keeps S (length_of v).
Proof. intros w g _. unfold length_of. destruct v; reflexivity. Qed.

Lemma keeps_writeFileSync p data :
  (forall g, S g -> forall f, p = Some f -> resolve f <> g) ->
  keeps S (writeFileSync p data).
Proof.
  intros Hp w g Hg. unfold writeFileSync. destruct p as [f|]; [|reflexivity].
  destruct (writable (resolve f)); [|reflexivity].
  pose proof (Hp g Hg f eq_refl) as Hne.
  destruct (torn (resolve f) data); simpl; apply lookup_insert_ne; exact Hne.
Qed.

Lemma keeps_read p : keeps S (read p).
Proof.
  unfold read.
  auto 20 using keeps_ret, keeps_log, keeps_bind, keeps_try_catch,
                keeps_readFileSync.
Qed.

Lemma keeps_write p c :
  (forall g, S g -> forall f, p = Some f -> resolve f <> g) ->
  keeps S (write p c).
Proof.
  intros Hp. unfold write.
  auto 20 using keeps_ret, keeps_log, keeps_bind, keeps_try_catch,
                keeps_mkdir_dirname, keeps_length_of, keeps_writeFileSync.
Qed.

Lemma keeps_edit p o n :
  (forall g, S g -> forall f, p = Some f -> resolve f <> g) ->
  keeps S (edit p o n).
Proof.
  intros Hp. unfold edit.
  auto 20 using keeps_ret, keeps_log, keeps_bind, keeps_try_catch, keeps_if,
                keeps_readFileSync, keeps_writeFileSync.
Qed.

End Keeps.

(** X2: [read] writes to no file but the log, whatever it is asked to
    read; [write] and [edit] touch no file but the log and the file that
    their path names, under whatever spelling. *)
Theorem file_tools_frame `{rt : Runtime} p g w :
  g <> LOG_FILE ->
  files (snd (read p w)) !! g = files w !! g
  /\ ((forall f, p = Some f -> resolve f <> g) ->
      (forall c, files (snd (write p c w)) !! g = files w !! g)
      /\ (forall o n, files (snd (edit p o n w)) !! g = files w !! g)).
Proof.
  intros Hg. split.
  - apply (keeps_read (fun g => g <> LOG_FILE)); auto.
  - intros Hp. split.
    + intros c. apply (keeps_write (beside p)); unfold beside; tauto.
    + intros o n. apply (keeps_edit (beside p)); unfold beside; tauto.
Qed.

Lemma file_tools_frame_witness :
  let w := Sample.world_with "b.txt" "kept" in
  files (snd (@read Sample.offline (Some "./a.txt") w)) !! "b.txt"
  = files w !! "b.txt"
  /\ (forall c, files (snd (@write Sample.offline (Some "./a.txt") c w))
                !! "b.txt" = files w !! "b.txt")
  /\ (forall o n, files (snd (@edit Sample.offline (Some "./a.txt") o n w))
                  !! "b.txt" = files w !! "b.txt").
Proof.
  destruct (@file_tools_frame Sample.offline (Some "./a.txt") "b.txt"
              (Sample.world_with "b.txt" "kept")) as [H1 H2].
  - discriminate.
  - split; [exact H1|]. apply H2. intros f [= <-]. discriminate.
Defined.

(** Another spelling of a path is no other file: a write to [./b.txt]
    changes [b.txt]. *)
Example write_through_another_spelling :
  let w := Sample.world_with "b.txt" "kept" in
  files (snd (@write Sample.offline (Some "./b.txt") (Some "new") w))
    !! "b.txt" = Some "new".
Proof. vm_compute. reflexivity. Qed.

(** ** What a tool call logs, and what a failed call leaves *)

Section Traces.

Context `{rt : Runtime}.

Lemma prefix_append a : forall b, String.prefix a (a +:+ b) = true.
Proof.
  induction a as [|c a IH]; intros b; [destruct b; reflexivity|].
  simpl. destruct (ascii_dec c c); [apply IH | congruence].
Qed.

Lemma prefix_same a : String.prefix a a = true.
Proof.
  induction a as [|c a IH]; [reflexivity|].
  simpl. destruct (ascii_dec c c); [exact IH | congruence].
Qed.

Lemma prefix_cancel a : forall b c,
  String.prefix (a +:+ b) (a +:+ c) = String.prefix b c.
Proof.
  induction a as [|x a IH]; intros b c; [reflexivity|].
  simpl. destruct (ascii_dec x x); [apply IH | congruence].
Qed.

Lemma trace_intro w w2 c1 m1 t2 c2 m2 (succeeded : bool) text :
  logs w2 = logs (logged T_tool c1 m1 w) ->
  (if succeeded then t2 = T_tool
   else t2 = T_error /\ String.prefix ("Error: " +:+ c2) text = true) ->
  tool_trace w (logged t2 c2 m2 w2) succeeded text.
Proof.
  intros Hl Ht. exists (entry_at T_tool c1 m1 w), (entry_at t2 c2 m2 w2).
  simpl. rewrite Hl. simpl. rewrite <- app_assoc.
  split; [reflexivity|]. split; [reflexivity|]. exact Ht.
Qed.

Lemma trace_read f w :
  let w0 := logged T_tool ("Reading file: " +:+ f) None w in
  exists text,
    fst (read (Some f) w) = Ok text
    /\ tool_trace w (snd (read (Some f) w))
         (negb (none (files w0 !! resolve f))) text.
Proof.
  cbv zeta. rewrite read_steps. cbv zeta.
  destruct (files _ !! resolve f) as [c|]; cbn [none negb fst snd];
    eexists; (split; [reflexivity|]);
    (eapply trace_intro; [reflexivity|]).
  - reflexivity.
  - split; [reflexivity | apply prefix_same].
Qed.

Lemma trace_write f content w :
  exists text,
    fst (write (Some f) (Some content) w) = Ok text
    /\ tool_trace w (snd (write (Some f) (Some content) w))
         (mkdir_ok (dirname f) && write_succeeds f content) text.
Proof.
  rewrite write_steps. cbv zeta. unfold write_succeeds.
  destruct (mkdir_ok (dirname f));
    [destruct (writable (resolve f));
     [destruct (torn (resolve f) content)|]|];
    cbn [none andb fst snd];
    eexists; (split; [reflexivity|]);
    (eapply trace_intro; [reflexivity|]);
    first [reflexivity | split; [reflexivity | apply prefix_same]].
Qed.

Lemma trace_edit f oldText newText w :
  let w0 := logged T_tool ("Editing file: " +:+ f) None w in
  exists text,
    fst (edit (Some f) oldText newText w) = Ok text
    /\ tool_trace w (snd (edit (Some f) oldText newText w))
         match files w0 !! resolve f with
         | Some c =>
             JS.includes c (JS.str oldText)
             && write_succeeds f
                  (JS.replace c (JS.str oldText) (JS.str newText))
         | None => false
         end text.
Proof.
  cbv zeta. rewrite edit_steps. cbv zeta. unfold write_succeeds.
  destruct (files _ !! resolve f) as [c|];
    [destruct (JS.includes c (JS.str oldText));
     [destruct (writable (resolve f));
      [destruct (torn (resolve f) _)|]|]|];
    cbn [none andb negb fst snd];
    eexists; (split; [reflexivity|]);
    (eapply trace_intro; [reflexivity|]);
    first [reflexivity | split; [reflexivity | apply prefix_same]].
Qed.

Lemma trace_bash cmd (code : nat) w :
  let p := fst (sh cmd (files (logged T_tool ("Executing bash: " +:+ cmd)
                                      None w))) in
  exit_code p = code ->
  exists text,
    fst (bash (Some cmd) w) = Ok text
    /\ tool_trace w (snd (bash (Some cmd) w))
         (exec_succeeds BASH_MAX_BUFFER cmd p) text.
Proof.
  cbv zeta. intros Hx. unfold exec_succeeds.
  destruct (String.eqb_spec cmd EmptyString) as [->|Hne].
  - rewrite bash_empty. cbn [negb andb fst snd].
    eexists. split; [reflexivity|].
    eapply trace_intro; [reflexivity|]. split; [reflexivity|].
    rewrite (prefix_cancel "Error: "). apply prefix_append.
  - rewrite (bash_steps cmd w Hne). cbv zeta. rewrite Hx.
    destruct (exceeds BASH_MAX_BUFFER (p_stdout _));
      [|destruct (exceeds BASH_MAX_BUFFER (p_stderr _));
        [|destruct code as [|code']]];
      cbn [negb andb Nat.eqb fst snd];
      eexists; (split; [reflexivity|]);
      (eapply trace_intro; [reflexivity|]);
      first [ reflexivity
            | split; [reflexivity|];
              rewrite (prefix_cancel "Error: "); apply prefix_append ].
Qed.

Lemma trace_glob pattern (code : nat) w :
  let p := fst (sh (glob_command pattern)
                   (files (logged T_tool
                             ("Glob pattern: " +:+ JS.str pattern) None w))) in
  exit_code p = code ->
  exists text,
    fst (glob pattern w) = Ok text
    /\ tool_trace w (snd (glob pattern w))
         (exec_succeeds DEFAULT_MAX_BUFFER (glob_command pattern) p) text.
Proof.
  cbv zeta. intros Hx. unfold exec_succeeds.
  destruct (String.eqb_spec (glob_command pattern) EmptyString) as [He|_];
    [destruct (glob_command_not_empty pattern He)|].
  rewrite glob_steps. cbv zeta. rewrite Hx.
  destruct (exceeds DEFAULT_MAX_BUFFER (p_stdout _));
    [|destruct (exceeds DEFAULT_MAX_BUFFER (p_stderr _));
      [|destruct code as [|code']]];
    cbn [negb andb Nat.eqb fst snd];
    eexists; (split; [reflexivity|]);
    (eapply trace_intro; [reflexivity|]);
    first [reflexivity | split; [reflexivity | apply prefix_same]].
Qed.

End Traces.

(** X3: a call of a tool with its arguments present, whose command (if
    it runs one) exits, logs exactly two entries: one of kind tool before
    the work, then one of kind tool when the work succeeded, and one of
    kind error when it failed; in that case the text returned to the
    model is [Error: ] followed by the content of the error entry (and,
    for [bash], by the captured output).  The work of [read] succeeds
    when the file is there; that of [write] when the directory can be
    made and the file is opened and written in full; that of [edit] when
    the file is there, includes the old text and is opened and written in
    full; that of [bash] and [glob] when the command is not empty, exits
    with 0 and keeps both outputs within the buffer. *)
Theorem tools_log_two_entries `{rt : Runtime} :
  (forall f w,
     let w0 := logged T_tool ("Reading file: " +:+ f) None w in
     exists text,
       fst (read (Some f) w) = Ok text
       /\ tool_trace w (snd (read (Some f) w))
            (negb (none (files w0 !! resolve f))) text)
  /\ (forall f content w,
        exists text,
          fst (write (Some f) (Some content) w) = Ok text
          /\ tool_trace w (snd (write (Some f) (Some content) w))
               (mkdir_ok (dirname f) && write_succeeds f content) text)
  /\ (forall f oldText newText w,
        let w0 := logged T_tool ("Editing file: " +:+ f) None w in
        exists text,
          fst (edit (Some f) oldText newText w) = Ok text
          /\ tool_trace w (snd (edit (Some f) oldText newText w))
               match files w0 !! resolve f with
               | Some c =>
                   JS.includes c (JS.str oldText)
                   && write_succeeds f
                        (JS.replace c (JS.str oldText) (JS.str newText))
               | None => false
               end text)
  /\ (forall cmd (code : nat) w,
        let p := fst (sh cmd (files (logged T_tool
                                       ("Executing bash: " +:+ cmd) None w))) in
        exit_code p = code ->
        exists text,
          fst (bash (Some cmd) w) = Ok text
          /\ tool_trace w (snd (bash (Some cmd) w))
               (exec_succeeds BASH_MAX_BUFFER cmd p) text)
  /\ (forall pattern (code : nat) w,
        let p := fst (sh (glob_command pattern)
                         (files (logged T_tool
                                   ("Glob pattern: " +:+ JS.str pattern)
                                   None w))) in
        exit_code p = code ->
        exists text,
          fst (glob pattern w) = Ok text
          /\ tool_trace w (snd (glob pattern w))
               (exec_succeeds DEFAULT_MAX_BUFFER (glob_command pattern) p)
               text).
Proof.
  split; [|split; [|split; [|split]]].
  - apply trace_read.
  - apply trace_write.
  - apply trace_edit.
  - apply trace_bash.
  - apply trace_glob.
Qed.

Lemma tools_log_two_entries_witness :
  let w := Sample.empty_world in
  exists text,
    fst (@bash Sample.failing (Some "nope") w) = Ok text
    /\ tool_trace w (snd (@bash Sample.failing (Some "nope") w)) false text.
Proof.
  apply (proj1 (proj2 (proj2 (proj2 (@tools_log_two_entries Sample.failing))))
           "nope" 127 Sample.empty_world).
  reflexivity.
Defined.

(** X4: a [write] or an [edit] that does not report success has changed
    no file but the log and, at most, the file that its path names; and
    that file is as it was unless the write failed after the file was
    opened, which leaves in it what was written until then. *)
Theorem failed_write_or_edit_leaves `{rt : Runtime} f g w :
  g <> LOG_FILE ->
  (forall content,
     let w' := snd (write (Some f) (Some content) w) in
     fst (write (Some f) (Some content) w)
       <> Ok ("Successfully wrote " +:+ f) ->
     files w' !! g = files w !! g
     \/ (g = resolve f
         /\ exists remains,
              torn (resolve f) content = Some remains
              /\ files w' !! g = Some remains))
  /\ (forall oldText newText,
        let w' := snd (edit (Some f) oldText newText w) in
        fst (edit (Some f) oldText newText w)
          <> Ok ("Successfully edited " +:+ f) ->
        files w' !! g = files w !! g
        \/ (g = resolve f
            /\ exists c remains,
                 files w !! g = Some c
                 /\ torn (resolve f)
                      (JS.replace c (JS.str oldText) (JS.str newText))
                    = Some remains
                 /\ files w' !! g = Some remains)).
Proof.
  intros Hg. split.
  - intros content. cbv zeta. rewrite write_steps. cbv zeta.
    destruct (mkdir_ok (dirname f));
      [destruct (writable (resolve f));
       [destruct (torn (resolve f) content) as [remains|] eqn:Ht|]|];
      cbn [fst snd]; intros H;
      try (exfalso; apply H; reflexivity);
      try (left; rewrite !logged_files_other by exact Hg; reflexivity).
    rewrite !logged_files_other by exact Hg. cbn [files set_files].
    destruct (decide (g = resolve f)) as [->|Hne].
    + right. split; [reflexivity|]. exists remains.
      split; [reflexivity | apply lookup_insert_eq].
    + left. rewrite lookup_insert_ne by congruence.
      rewrite logged_files_other by exact Hg. reflexivity.
  - intros oldText newText. cbv zeta. rewrite edit_steps. cbv zeta.
    destruct (files _ !! resolve f) as [c|] eqn:Hf;
      [destruct (negb _);
       [|destruct (writable (resolve f));
         [destruct (torn (resolve f) _) as [remains|] eqn:Ht|]]|];
      cbn [fst snd]; intros H;
      try (exfalso; apply H; reflexivity);
      try (left; rewrite !logged_files_other by exact Hg; reflexivity).
    rewrite !logged_files_other by exact Hg. cbn [files set_files].
    destruct (decide (g = resolve f)) as [->|Hne].
    + right. split; [reflexivity|]. exists c, remains.
      rewrite logged_files_other in Hf by exact Hg.
      split; [exact Hf|]. split; [exact Ht | apply lookup_insert_eq].
    + left. rewrite lookup_insert_ne by congruence.
      rewrite logged_files_other by exact Hg. reflexivity.
Qed.

Lemma failed_write_or_edit_leaves_witness :
  let w := Sample.world_with "/etc/hosts" "h" in
  let w' := snd (@write Sample.offline (Some "/etc/hosts") (Some "x") w) in
  files w' !! "/etc/hosts" = files w !! "/etc/hosts"
  \/ ("/etc/hosts" = @resolve Sample.offline "/etc/hosts"
      /\ exists remains,
           @torn Sample.offline (@resolve Sample.offline "/etc/hosts") "x"
           = Some remains
           /\ files w' !! "/etc/hosts" = Some remains).
Proof.
  apply (proj1 (@failed_write_or_edit_leaves Sample.offline
                  "/etc/hosts" "/etc/hosts"
                  (Sample.world_with "/etc/hosts" "h")
                  ltac:(discriminate)) "x").
  vm_compute. discriminate.
Defined.

(** A write that fails after the open has emptied the file. *)
Example interrupted_write_empties_the_file :
  let w := Sample.world_with "/dev/full" "before" in
  let r := @write Sample.offline (Some "/dev/full") (Some "data") w in
  fst r = Ok "Error: Failed to write /dev/full: Error: write /dev/full"
  /\ files (snd r) !! "/dev/full" = Some EmptyString.
Proof. vm_compute. split; reflexivity. Qed.

(** X5: no tool throws, and none contacts the endpoint, whatever its
    arguments, present or not.  [read], [write] and [edit] always return
    a text.  [bash] and [glob] return a text unless their own command
    ends the agent or never ends, and so does the [switch] of the
    dispatch for every tool name and every input; a command that ends
    the agent ends the call, and the process, with the status of the
    agent's death.  (The file of the audit logger is taken to stay
    writable.) *)
Theorem tools_never_throw `{rt : Runtime} :
  (forall p, returns (read p))
  /\ (forall p c, returns (write p c))
  /\ (forall p o n, returns (edit p o n))
  /\ (forall c, settles (fun cmd => c = Some cmd) (bash c))
  /\ (forall p, settles (fun cmd => cmd = glob_command p) (glob p))
  /\ (forall name input,
        settles (fun cmd => In cmd (tool_commands name input))
                (call_tool name input))
  /\ (forall name input w,
        exit_all (fun cmd => In cmd (tool_commands name input)) ->
        exists text, fst (call_tool name input w) = Ok text)
  /\ (forall cmd status w,
        cmd <> EmptyString ->
        exit_code (fst (sh cmd (files (logged T_tool
                                         ("Executing bash: " +:+ cmd)
                                         None w))))
        = KillsAgent status ->
        fst (bash (Some cmd) w) = Exit status).
Proof.
  split; [|split; [|split; [|split; [|split; [|split; [|split]]]]]].
  - apply returns_read.
  - apply returns_write.
  - apply returns_edit.
  - apply settles_bash.
  - intros p. eapply settles_mono; [|apply settles_glob].
    intros cmd [= ->]. reflexivity.
  - apply settles_call_tool.
  - intros name input w Hx.
    destruct (settles_call_tool name input w) as [_ H].
    destruct (fst (call_tool name input w)) as [text|e|c|].
    + eauto.
    + contradiction.
    + destruct (ended_by_exit_all _ _ Hx H).
    + destruct (ended_by_exit_all _ _ Hx H).
  - intros cmd status w Hne Hk.
    rewrite (bash_steps cmd w Hne). cbv zeta. rewrite Hk. reflexivity.
Qed.

Lemma tools_never_throw_witness :
  fst (@bash Sample.deadly (Some "kill -9 $PPID") Sample.empty_world)
  = Exit 137
  /\ exists text,
       fst (@call_tool Sample.deadly "bash" {[ "command" := "ls" ]}
              Sample.empty_world) = Ok text.
Proof.
  pose proof (@tools_never_throw Sample.deadly)
    as (_ & _ & _ & _ & _ & _ & H7 & H8).
  split.
  - apply H8; [discriminate | reflexivity].
  - apply H7. intros cmd f Hc. vm_compute in Hc.
    destruct Hc as [<-|[]]. exists 0. reflexivity.
Defined.

(** ** Missing arguments, and the project instructions *)

Section Edges.

Context `{rt : Runtime}.

Lemma read_undefined w :
  read None w
  = (Ok ("Error: " +:+ ("Failed to read undefined: "
                        +:+ toString (type_error "path"))),
     logged T_error ("Failed to read undefined: "
                     +:+ toString (type_error "path")) None
       (logged T_tool "Reading file: undefined" None w)).
Proof.
  unfold read. rewrite try_bind_log.
  rewrite (try_throw _ _ _ (type_error "path") (logged _ _ _ w))
    by (apply bind_throw; reflexivity).
  rewrite bind_log. reflexivity.
Qed.

Lemma write_undefined p w :
  write p None w
  = (Ok ("Error: " +:+ ("Failed to write " +:+ JS.str p +:+ ": "
                        +:+ toString (type_error "length"))),
     logged T_error ("Failed to write " +:+ JS.str p +:+ ": "
                     +:+ toString (type_error "length")) None w).
Proof.
  unfold write.
  rewrite (try_throw _ _ _ (type_error "length") w)
    by (apply bind_throw; reflexivity).
  rewrite bind_log. reflexivity.
Qed.

End Edges.

(** X6: a tool call whose input lacks an argument is answered and does
    no work.  Without [path], [read] returns the error of the failed
    read; without [content], [write] returns an error before it logs or
    touches anything; without [command], [bash] returns an error and no
    command is run: in all three only log entries are added.  A missing
    [pattern] or [old_text] is not noticed: it is read as the text
    [undefined], which [glob] looks for and [edit] replaces. *)
Theorem missing_arguments `{rt : Runtime} input w :
  (input !! "path" = None ->
   call_tool "read" input w
   = (Ok ("Error: " +:+ ("Failed to read undefined: "
                         +:+ toString (type_error "path"))),
      logged T_error ("Failed to read undefined: "
                      +:+ toString (type_error "path")) None
        (logged T_tool "Reading file: undefined" None w)))
  /\ (input !! "content" = None ->
      call_tool "write" input w
      = (Ok ("Error: " +:+ ("Failed to write " +:+ JS.str (input !! "path")
                            +:+ ": " +:+ toString (type_error "length"))),
         logged T_error ("Failed to write " +:+ JS.str (input !! "path")
                         +:+ ": " +:+ toString (type_error "length")) None w))
  /\ (input !! "command" = None ->
      exists text,
        call_tool "bash" input w
        = (Ok ("Error: " +:+ text),
           logged T_error ("Bash command failed: "
                           +:+ e_message (type_error "command"))
             (Some (JObj []))
             (logged T_tool "Executing bash: undefined" None w)))
  /\ (input !! "pattern" = None ->
      call_tool "glob" input w = glob (Some "undefined") w)
  /\ (input !! "old_text" = None ->
      call_tool "edit" input w
      = edit (input !! "path") (Some "undefined") (input !! "new_text") w).
Proof.
  repeat split.
  - intros H. change (call_tool "read" input w) with (read (input !! "path") w).
    rewrite H. apply read_undefined.
  - intros H.
    change (call_tool "write" input w)
      with (write (input !! "path") (input !! "content") w).
    rewrite H. apply write_undefined.
  - intros H.
    change (call_tool "bash" input w) with (bash (input !! "command") w).
    rewrite H, bash_undefined. eexists. reflexivity.
  - intros H.
    change (call_tool "glob" input w) with (glob (input !! "pattern") w).
    rewrite H. reflexivity.
  - intros H.
    change (call_tool "edit" input w)
      with (edit (input !! "path") (input !! "old_text")
                 (input !! "new_text") w).
    rewrite H. reflexivity.
Qed.

Lemma missing_arguments_witness :
  let w := Sample.empty_world in
  @call_tool Sample.offline "write" {[ "path" := "a.txt" ]} w
  = (Ok "Error: Failed to write a.txt: TypeError: length",
     @logged Sample.offline T_error
       "Failed to write a.txt: TypeError: length" None w)
  /\ @call_tool Sample.offline "glob" ∅ w
     = @glob Sample.offline (Some "undefined") w.
Proof.
  destruct (@missing_arguments Sample.offline {[ "path" := "a.txt" ]}
              Sample.empty_world) as (_ & H2 & _).
  destruct (@missing_arguments Sample.offline ∅ Sample.empty_world)
    as (_ & _ & _ & H4 & _).
  split.
  - apply H2. reflexivity.
  - apply H4. reflexivity.
Defined.

(** X7: [read] handles its own failure, so the [catch] around the read
    of [CLAUDE.md] is never entered: the entry [Found and read CLAUDE.md]
    is logged in every case, and when the file is missing the
    instructions handed to the system prompt are the error text of the
    failed read, which is not empty. *)
Theorem claude_md_always_found `{rt : Runtime} w :
  exists claudeMd w1,
    read (Some "CLAUDE.md") w = (Ok claudeMd, w1)
    /\ read_claude_md w
       = (Ok claudeMd, logged T_system "Found and read CLAUDE.md" None w1)
    /\ (files w !! "CLAUDE.md" = None ->
        claudeMd = "Error: " +:+ ("Failed to read CLAUDE.md: "
                                  +:+ toString (fs_error "open" "CLAUDE.md"))
        /\ JS.truthy claudeMd = true).
Proof.
  pose proof (read_steps "CLAUDE.md" w) as Hr. cbv zeta in Hr.
  rewrite resolve_claude_md in Hr.
  assert (Hf : files (logged T_tool ("Reading file: " +:+ "CLAUDE.md") None w)
               !! "CLAUDE.md" = files w !! "CLAUDE.md")
    by (apply logged_files_other; discriminate).
  rewrite Hf in Hr.
  unfold read_claude_md. rewrite Hr.
  destruct (files w !! "CLAUDE.md") as [c|].
  - eexists _, _. split; [reflexivity|]. split.
    + unfold try_catch. rewrite bind_log. reflexivity.
    + discriminate.
  - eexists _, _. split; [reflexivity|]. split.
    + unfold try_catch. rewrite bind_log. reflexivity.
    + intros _. split; reflexivity.
Qed.

Lemma claude_md_always_found_witness :
  exists claudeMd w1,
    @read Sample.offline (Some "CLAUDE.md") Sample.empty_world
    = (Ok claudeMd, w1)
    /\ @read_claude_md Sample.offline Sample.empty_world
       = (Ok claudeMd,
          @logged Sample.offline T_system "Found and read CLAUDE.md" None w1)
    /\ claudeMd = "Error: Failed to read CLAUDE.md: Error: open CLAUDE.md"
    /\ JS.truthy claudeMd = true.
Proof.
  destruct (@claude_md_always_found Sample.offline Sample.empty_world)
    as (c & w1 & H1 & H2 & H3).
  exists c, w1. split; [exact H1|]. split; [exact H2|].
  apply H3. reflexivity.
Defined.

(** ** More on [edit] *)

Section EditMore.

Context `{rt : Runtime}.






End EditMore.





Example edit_undo_needs_the_position :
  let w := Sample.world_with "a.txt" "aab" in
  let w1 := snd (@edit Sample.offline (Some "a.txt") (Some "ab") (Some "a") w) in
  let w2 := snd (@edit Sample.offline (Some "a.txt") (Some "a") (Some "ab") w1) in
  files w1 !! "a.txt" = Some "aa" /\ files w2 !! "a.txt" = Some "aba".
Proof. vm_compute. split; reflexivity. Qed.

(** ** More on the loop and the run *)

Section LoopMore.

Context `{rt : Runtime}.



(** From a state in which the loop goes on, with commands that exit and
    an endpoint that always answers and never stops, the loop runs to
    the ceiling. *)
Lemma while_loop_to_the_ceiling claudeMd :
  (forall n req, exists response,
      messages_create n req = inr response /\ stops response = false) ->
  tame ->
  forall fuel st w,
    continueLoop st = true ->
    fuel = MAX_ITERATIONS - iterationCount st ->
    exists st' w' new,
      while_loop fuel claudeMd st w = (Ok st', w')
      /\ requests w' = requests w ++ new
      /\ length new = MAX_ITERATIONS - iterationCount st
      /\ iterationCount st' = iterationCount st + length new
      /\ continueLoop st' = true.
Proof.
  intros Hup Htame. induction fuel as [|fuel IH]; intros st w Hgo Hfuel.
  - exists st, w, []. cbn [while_loop].
    destruct (loop_condition st); simpl; rewrite app_nil_r;
      repeat split; auto; lia.
  - cbn [while_loop].
    assert (Hc : loop_condition st = true).
    { unfold loop_condition. rewrite Hgo. apply Nat.ltb_lt. lia. }
    rewrite Hc.
    destruct (loop_body_spec claudeMd st w) as [Hr Hb].
    destruct (Hup (length (requests w)) (request_of claudeMd st))
      as (response & Hm & Hs).
    rewrite Hm in Hb.
    destruct (loop_body claudeMd st w) as [[st1|e|c|] w1] eqn:E;
      cbn [fst snd] in Hr, Hb.
    + destruct Hb as (rs & -> & _).
      rewrite (bind_ok _ _ _ _ _ E).
      assert (Hgo' : continueLoop (next_state st response rs) = true)
        by (unfold next_state; rewrite Hs; exact Hgo).
      destruct (IH (next_state st response rs) w1 Hgo')
        as (st' & w' & new & E' & Hr' & Hl & Hk & Hgo'').
      { rewrite next_state_count. lia. }
      rewrite next_state_count in Hl, Hk.
      exists st', w', (request_of claudeMd st :: new).
      split; [exact E'|]. split; [rewrite Hr', Hr, <- app_assoc; reflexivity|].
      simpl. repeat split; auto; lia.
    + contradiction.
    + exfalso. eapply ended_by_exit_all; [|exact Hb].
      intros cmd f _. apply Htame. exact I.
    + exfalso. eapply ended_by_exit_all; [|exact Hb].
      intros cmd f _. apply Htame. exact I.
Qed.

Lemma main_fate w :
  fst (main w) = match fst (implementFeature w) with
                 | Ok code => Exited code
                 | Throw _ => Exited 1
                 | Exit code => Exited code
                 | Hang => Stalled
                 end.
Proof. unfold main. destruct (implementFeature w) as [[c|e|c|] w']; reflexivity. Qed.

Lemma cut_short_ended {A} w new (r : Result A) :
  cut_short w new r -> ended_by (fun _ => True) r.
Proof.
  intros (sent & req & response & _ & _ & H).
  eapply ended_by_mono; [|exact H]. auto.
Qed.

End LoopMore.

(** X10: a response that says [end_turn], or that holds no tool call,
    ends the loop at once: the turn sends its one request and the loop
    sends no other; the iteration count goes up by one and the
    transcript is left as it was (the results of the calls of an
    [end_turn] response are never sent).  Nothing is thrown, and the
    loop then returns unless a command of a call of the response ends the
    agent or never ends. *)
Theorem natural_stop_ends_loop `{rt : Runtime} claudeMd st response w :
  loop_condition st = true ->
  messages_create (length (requests w)) (request_of claudeMd st)
  = inr response ->
  stops response = true ->
  let st' := {| messages := messages st;
                continueLoop := false;
                iterationCount := S (iterationCount st) |} in
  requests (snd (conversation_loop claudeMd st w))
  = requests w ++ [request_of claudeMd st]
  /\ match fst (conversation_loop claudeMd st w) with
     | Ok st1 => st1 = st'
     | Throw _ => False
     | r => ended_by (fun cmd => In cmd (commands_of (content response))) r
     end
  /\ (exit_all (fun cmd => In cmd (commands_of (content response))) ->
      exists w',
        conversation_loop claudeMd st w = (Ok st', w')
        /\ requests w' = requests w ++ [request_of claudeMd st]).
Proof.
  intros Hc Hm Hs st'. rewrite conversation_loop_unfold, Hc.
  destruct (loop_body_spec claudeMd st w) as [Hr Hb]. rewrite Hm in Hb.
  assert (Hn : forall rs, next_state st response rs = st')
    by (intros rs; unfold next_state; rewrite Hs; reflexivity).
  destruct (loop_body claudeMd st w) as [[st1|e|c|] w1] eqn:E;
    cbn [fst snd] in Hr, Hb.
  - destruct Hb as (rs & -> & _). rewrite Hn in *.
    rewrite (bind_ok _ _ _ _ _ E).
    rewrite conversation_loop_unfold.
    rewrite loop_condition_stopped by reflexivity.
    cbn [ret fst snd]. split; [exact Hr|]. split; [reflexivity|].
    intros _. exists w1. auto.
  - contradiction.
  - rewrite (bind_exit _ _ _ _ _ E). cbn [fst snd].
    split; [exact Hr|]. split; [exact Hb|].
    intros Hx. destruct (ended_by_exit_all _ _ Hx Hb).
  - rewrite (bind_hang _ _ _ _ E). cbn [fst snd].
    split; [exact Hr|]. split; [exact Hb|].
    intros Hx. destruct (ended_by_exit_all _ _ Hx Hb).
Qed.

Lemma natural_stop_ends_loop_witness :
  exists w',
    @conversation_loop Sample.online EmptyString
      {| messages := [UserText "go"]; continueLoop := true;
         iterationCount := 0 |}
      {| files := ∅; logs := []; requests := [@request_of Sample.online
           EmptyString {| messages := []; continueLoop := true;
                          iterationCount := 0 |}] |}
    = (Ok {| messages := [UserText "go"]; continueLoop := false;
             iterationCount := 1 |}, w')
    /\ length (requests w') = 2.
Proof.
  destruct (@natural_stop_ends_loop Sample.online EmptyString
              {| messages := [UserText "go"]; continueLoop := true;
                 iterationCount := 0 |}
              {| content := [Text "Done."]; stop_reason := "end_turn" |}
              {| files := ∅; logs := [];
                 requests := [@request_of Sample.online EmptyString
                                {| messages := []; continueLoop := true;
                                   iterationCount := 0 |}] |})
    as (_ & _ & H).
  - reflexivity.
  - reflexivity.
  - reflexivity.
  - destruct H as (w' & E & Hr).
    + intros cmd f [].
    + exists w'. split; [exact E|]. rewrite Hr. reflexivity.
Defined.

(** A response that says [end_turn] and asks for the command that ends
    the agent: the loop does not return. *)
Example natural_stop_cut_short :
  let st := {| messages := [UserText "go"]; continueLoop := true;
               iterationCount := 0 |} in
  stops
    {| content := [ToolUse "toolu_1" "bash"
                     {[ "command" := "kill -9 $PPID" ]}];
       stop_reason := "end_turn" |} = true
  /\ fst (@conversation_loop Sample.doomed EmptyString st Sample.empty_world)
     = Exit 137.
Proof. vm_compute. split; reflexivity. Qed.

(** X11: with commands that exit and an endpoint that always answers and
    whose answers never stop, the loop is ended by its condition at the
    ceiling, however many turns the recursion is allowed beyond it: from
    a state in which it goes on at count [c] it sends exactly
    [MAX_ITERATIONS - c] requests, returns normally with the count at
    the ceiling (or at [c] when [c] is beyond it), and [continueLoop] is
    still set. *)
Theorem never_stopping_endpoint_hits_ceiling `{rt : Runtime}
    claudeMd fuel st w :
  (forall n req, exists response,
      messages_create n req = inr response /\ stops response = false) ->
  tame ->
  continueLoop st = true ->
  MAX_ITERATIONS - iterationCount st <= fuel ->
  exists st' w' new,
    while_loop fuel claudeMd st w = (Ok st', w')
    /\ requests w' = requests w ++ new
    /\ length new = MAX_ITERATIONS - iterationCount st
    /\ iterationCount st' = iterationCount st + length new
    /\ continueLoop st' = true.
Proof.
  intros Hup Htame Hgo Hfuel.
  rewrite (while_loop_fuel claudeMd fuel
             (MAX_ITERATIONS - iterationCount st) st w Hfuel (le_n _)).
  apply (while_loop_to_the_ceiling claudeMd Hup Htame); auto.
Qed.

Lemma never_stopping_endpoint_hits_ceiling_witness :
  exists st' w' new,
    @while_loop Sample.busy 25 EmptyString
      {| messages := [UserText "go"]; continueLoop := true;
         iterationCount := 0 |} Sample.empty_world
    = (Ok st', w')
    /\ requests w' = requests Sample.empty_world ++ new
    /\ length new = 20
    /\ iterationCount st' = 0 + length new
    /\ continueLoop st' = true.
Proof.
  apply (@never_stopping_endpoint_hits_ceiling Sample.busy EmptyString 25
           {| messages := [UserText "go"]; continueLoop := true;
              iterationCount := 0 |} Sample.empty_world).
  - intros n req. eexists. split; reflexivity.
  - intros cmd f _. exists 0. reflexivity.
  - reflexivity.
  - vm_compute. lia.
Defined.

(** X12: the failure of a tool never fails the run: when a feature
    request is given and the endpoint answers every request, the run
    never ends in the fatal handler and throws nothing; it completes,
    with the snapshot of a completed run, and the process exits with 0,
    unless a command that the last response asked for ends the agent or
    never ends; when every command exits, it always completes.  (The
    files of the audit logger are taken to stay writable.) *)
Theorem endpoint_up_run_completes `{rt : Runtime} w :
  JS.truthy (env_or "FEATURE_REQUEST" EmptyString) = true ->
  (forall n req, exists response, messages_create n req = inr response) ->
  (exists new,
     requests (snd (implementFeature w)) = requests w ++ new
     /\ match fst (implementFeature w) with
        | Ok code =>
            code = 0
            /\ files (snd (implementFeature w)) !! LOG_JSON
               = Some (JSON_stringify_report
                         (success_report (logs (snd (implementFeature w)))
                                         (length new)))
        | Throw _ => False
        | r => cut_short w new r
        end)
  /\ (tame -> fst (implementFeature w) = Ok 0 /\ fst (main w) = 0).
Proof.
  intros Hfr Hup.
  destruct (implementFeature_spec w) as (claudeMd & new & Hn & _ & _ & _ & H).
  assert (Hm : exists new,
             requests (snd (implementFeature w)) = requests w ++ new
             /\ match fst (implementFeature w) with
                | Ok code =>
                    code = 0
                    /\ files (snd (implementFeature w)) !! LOG_JSON
                       = Some (JSON_stringify_report
                                 (success_report
                                    (logs (snd (implementFeature w)))
                                    (length new)))
                | Throw _ => False
                | r => cut_short w new r
                end).
  { exists new. split; [exact Hn|].
    destruct H as [(_ & He & _)|[[H1 H2]|[(_ & error & Hrej & _)|H]]].
    - rewrite He in Hfr. discriminate.
    - rewrite H1. auto.
    - destruct Hrej as (sent & req & _ & Hrej).
      destruct (Hup (length (requests w) + length sent) req) as [response Hr].
      rewrite Hr in Hrej. discriminate.
    - destruct (fst (implementFeature w)) as [code|e|c|]; auto.
      + apply cut_short_ended in H. destruct H.
      + apply cut_short_ended in H. destruct H. }
  split; [exact Hm|].
  intros Htame. destruct Hm as (new' & _ & Hm).
  rewrite main_fate.
  destruct (fst (implementFeature w)) as [code|e|c|].
  - destruct Hm as [-> _]. auto.
  - contradiction.
  - apply cut_short_ended in Hm. destruct (ended_by_exit_all _ _ Htame Hm).
  - apply cut_short_ended in Hm. destruct (ended_by_exit_all _ _ Htame Hm).
Qed.

Lemma endpoint_up_run_completes_witness :
  fst (@implementFeature Sample.online Sample.empty_world) = Ok 0
  /\ fst (@main Sample.online Sample.empty_world) = 0.
Proof.
  apply (@endpoint_up_run_completes Sample.online Sample.empty_world).
  - reflexivity.
  - intros [|n] req; eexists; reflexivity.
  - intros cmd f _. exists 0. reflexivity.
Defined.

(** X13: without a feature request (the variable unset or empty) the
    process exits with 1 before anything else happens: two entries are
    logged, the start and the error, no request is sent, and no file but
    the log is written, not even the snapshot. *)
Theorem unconfigured_run `{rt : Runtime} w :
  JS.truthy (env_or "FEATURE_REQUEST" EmptyString) = false ->
  implementFeature w
  = (Exit 1,
     logged T_error "No FEATURE_REQUEST provided" None
       (logged T_system "Starting feature implementation" None w))
  /\ fst (main w) = 1
  /\ requests (snd (main w)) = requests w
  /\ forall g, g <> LOG_FILE -> files (snd (main w)) !! g = files w !! g.
Proof.
  intros Hfr. pose proof (unconfigured_steps w Hfr) as E.
  split; [exact E|]. unfold main. rewrite E. cbn [fst snd].
  split; [reflexivity|]. split; [reflexivity|].
  intros g Hg. rewrite !logged_files_other by exact Hg. reflexivity.
Qed.

Lemma unconfigured_run_witness :
  fst (@main Sample.unset Sample.empty_world) = 1
  /\ requests (snd (@main Sample.unset Sample.empty_world)) = [].
Proof.
  destruct (@unconfigured_run Sample.unset Sample.empty_world)
    as (_ & H1 & H2 & _).
  - reflexivity.
  - split; [exact H1 | exact H2].
Defined.



(** X15: no error thrown in a run escapes [implementFeature], and the
    process ends with the status 0 or 1, or with the status of its death
    when a shell command ends it, or not at all when a shell command
    never ends; when every command exits, the status is 0 or 1.  (The
    files of the audit logger are taken to stay writable.) *)
Theorem exit_status `{rt : Runtime} w :
  (forall e, fst (implementFeature w) <> Throw e)
  /\ match fst (main w) with
     | Exited status =>
         status = 0 \/ status = 1
         \/ exists cmd f, exit_code (fst (sh cmd f)) = KillsAgent status
     | Stalled => exists cmd f, exit_code (fst (sh cmd f)) = NeverExits
     end
  /\ (tame -> fst (main w) = 0 \/ fst (main w) = 1).
Proof.
  destruct (implementFeature_spec w) as (claudeMd & new & _ & _ & _ & _ & H).
  rewrite main_fate.
  assert (Hcases :
            match fst (implementFeature w) with
            | Ok code => code = 0 \/ code = 1
            | Throw _ => False
            | Exit status =>
                status = 1
                \/ exists (cmd : string) (f : gmap string string),
                     exit_code (fst (sh cmd f)) = KillsAgent status
            | Hang =>
                exists (cmd : string) (f : gmap string string),
                  exit_code (fst (sh cmd f)) = NeverExits
            end).
  { destruct H as [[H _]|[[H _]|[[H _]|H]]];
      try (rewrite H; auto; fail).
    apply cut_short_ended in H.
    destruct (fst (implementFeature w)) as [code|e|c|]; simpl in H;
      try contradiction.
    - right. destruct H as (cmd & f & _ & H). eauto.
    - destruct H as (cmd & f & _ & H). eauto. }
  destruct (fst (implementFeature w)) as [code|e|c|].
  - split; [discriminate|]. split; [tauto|].
    intros _. destruct Hcases as [-> | ->]; auto.
  - contradiction.
  - split; [discriminate|]. split; [tauto|].
    intros Htame. destruct Hcases as [-> | (cmd & f & Hk)]; [auto|].
    destruct (Htame cmd f I) as [code Hc]. rewrite Hc in Hk. discriminate.
  - split; [discriminate|]. split; [exact Hcases|].
    intros Htame. destruct Hcases as (cmd & f & Hk).
    destruct (Htame cmd f I) as [code Hc]. rewrite Hc in Hk. discriminate.
Qed.

Lemma exit_status_witness :
  fst (@main Sample.online Sample.empty_world) = 0
  \/ fst (@main Sample.online Sample.empty_world) = 1.
Proof.
  apply (@exit_status Sample.online Sample.empty_world).
  intros cmd f _. exists 0. reflexivity.
Defined.

(** A run that a command ends: the status is that of the agent's
    death. *)
Example exit_status_of_a_killed_run :
  fst (@main Sample.deadly Sample.empty_world) = 137.
Proof. vm_compute. reflexivity. Qed.

(** ** Logged texts, the error summary, and the lines of [glob] *)

Section Texts.

Context `{rt : Runtime}.

Lemma length_take_le n : forall s, String.length (JS.take n s) <= n.
Proof.
  induction n as [|n IH]; intros s; [destruct s; simpl; lia|].
  destruct s as [|c s']; cbn [JS.take String.length]; [lia|].
  specialize (IH s'). lia.
Qed.

Lemma take_all n : forall s, String.length s <= n -> JS.take n s = s.
Proof.
  induction n as [|n IH]; intros s H.
  - destruct s; [reflexivity | simpl in H; lia].
  - destruct s as [|c s']; [reflexivity|]. cbn [JS.take]. f_equal.
    apply IH. simpl in H. lia.
Qed.

Lemma append_empty (s : string) : s +:+ EmptyString = s.
Proof. induction s; simpl; congruence. Qed.

Lemma append_assoc_3 (a b c : string) : (a +:+ b) +:+ c = a +:+ (b +:+ c).
Proof. induction a; simpl; congruence. Qed.

Lemma join_lines_snoc x : forall l,
  exists pre, JS.join_lines (l ++ [x]) = pre +:+ x.
Proof.
  induction l as [|a l' [pre IH]].
  - exists EmptyString. reflexivity.
  - change ((a :: l') ++ [x]) with (a :: (l' ++ [x])).
    destruct (l' ++ [x]) as [|y t] eqn:E.
    + destruct l'; discriminate.
    + cbn [JS.join_lines]. cbn [JS.join_lines] in IH.
      exists (a +:+ JS.nl +:+ pre).
      change (match t with
              | [] => y
              | _ :: _ => y +:+ JS.nl +:+ JS.join_lines t
              end) with (JS.join_lines (y :: t)).
      change (match t with
              | [] => y
              | _ :: _ => y +:+ JS.nl +:+ JS.join_lines t
              end) with (JS.join_lines (y :: t)) in IH.
      rewrite IH, !append_assoc_3. reflexivity.
Qed.

Lemma split_lines_no_newline s :
  Forall (fun e => no_newline e = true) (JS.split_lines s).
Proof.
  induction s as [|c s' IH]; cbn [JS.split_lines].
  - repeat constructor.
  - destruct (Ascii.eqb c JS.LF) eqn:Hc.
    + constructor; [reflexivity | exact IH].
    + destruct (JS.split_lines s') as [|h t].
      * repeat constructor. simpl. rewrite Hc. reflexivity.
      * inversion IH; subst. constructor; [|assumption].
        simpl. rewrite Hc. assumption.
Qed.

Lemma split_lines_plain x :
  no_newline x = true -> JS.split_lines x = [x].
Proof.
  induction x as [|c x' IH]; [reflexivity|].
  simpl. intros H. apply andb_true_iff in H. destruct H as [Hc Hx].
  apply negb_true_iff in Hc. rewrite Hc, (IH Hx). reflexivity.
Qed.

Lemma split_lines_first x rest :
  no_newline x = true ->
  JS.split_lines (x +:+ String JS.LF rest) = x :: JS.split_lines rest.
Proof.
  induction x as [|c x' IH]; [reflexivity|].
  simpl. intros H. apply andb_true_iff in H. destruct H as [Hc Hx].
  apply negb_true_iff in Hc. rewrite Hc, (IH Hx). reflexivity.
Qed.

(** Lines without a line feed are found again by splitting what
    [join] makes of them. *)
Lemma split_join l :
  l <> [] -> Forall (fun e => no_newline e = true) l ->
  JS.split_lines (JS.join_lines l) = l.
Proof.
  induction l as [|x t IH]; [congruence|]. intros _ H.
  inversion H as [|? ? Hx Ht]; subst.
  destruct t as [|y t'].
  - apply split_lines_plain. exact Hx.
  - change (JS.join_lines (x :: y :: t'))
      with (x +:+ String JS.LF (JS.join_lines (y :: t'))).
    rewrite (split_lines_first _ _ Hx). f_equal.
    apply IH; [discriminate | exact Ht].
Qed.

Lemma Forall_filter_kept {A} (P : A -> Prop) f (l : list A) :
  Forall P l -> Forall P (List.filter f l).
Proof.
  induction 1; simpl; [constructor|].
  destruct (f x); [constructor|]; assumption.
Qed.

Lemma Forall_filter_true {A} (f : A -> bool) (l : list A) :
  Forall (fun x => f x = true) (List.filter f l).
Proof.
  induction l as [|x l IH]; simpl; [constructor|].
  destruct (f x) eqn:E; [constructor|]; assumption.
Qed.

End Texts.

(** X16: a text block adds no tool result and does not count as a tool
    call; it is logged as one entry of kind message whose content is the
    text after [Claude: ] when the text has at most 200 characters, and
    its first 200 characters followed by three dots otherwise: never more
    than 211 characters. *)
Theorem text_block_logged_truncated `{rt : Runtime} text acc w :
  exists logged_text,
    process_block (Text text) acc w
    = (Ok acc, logged T_message logged_text None w)
    /\ String.length logged_text <= 211
    /\ (String.length text <= 200 -> logged_text = "Claude: " +:+ text)
    /\ (200 < String.length text ->
        logged_text = "Claude: " +:+ JS.take 200 text +:+ "...").
Proof.
  eexists. split.
  - cbn [process_block]. rewrite bind_log. reflexivity.
  - pose proof (length_take_le 200 text) as Hle.
    destruct (Nat.ltb 200 (String.length text)) eqn:Hlt.
    + apply Nat.ltb_lt in Hlt. split; [|split].
      * rewrite !length_append. cbn [String.length]. lia.
      * intros H. lia.
      * intros _. reflexivity.
    + apply Nat.ltb_ge in Hlt. split; [|split].
      * rewrite !length_append. cbn [String.length]. lia.
      * intros _. rewrite (take_all 200 text Hlt), append_empty. reflexivity.
      * intros H. lia.
Qed.

Lemma text_block_logged_truncated_witness :
  exists logged_text,
    @process_block Sample.offline (Text "Done.") (false, [])
                   Sample.empty_world
    = (Ok (false, []),
       @logged Sample.offline T_message logged_text None Sample.empty_world)
    /\ logged_text = "Claude: Done.".
Proof.
  destruct (@text_block_logged_truncated Sample.offline "Done." (false, [])
              Sample.empty_world) as (t & E & _ & H & _).
  exists t. split; [exact E|]. apply H. vm_compute. lia.
Defined.

(** X17: the error summary of a failed run is never empty.  The run
    failed because the endpoint rejected its last request; the summary
    holds, one to a line, the contents of the error entries that were
    logged before the fatal handler, in their order, and then the line
    [Fatal error: ] with the message of that rejection. *)
Theorem error_summary_ends_with_fatal_error `{rt : Runtime} w :
  fst (implementFeature w) = Ok 1 ->
  let w' := snd (implementFeature w) in
  exists error sent req before l,
    requests w' = requests w ++ sent ++ [req]
    /\ messages_create (length (requests w) + length sent) req = inl error
    /\ logs w' = before ++ [l]
    /\ files w' !! ERROR_SUMMARY
       = Some (JS.join_lines
                 (map log_content (List.filter is_error before)
                  ++ ["Fatal error: " +:+ e_message error]))
    /\ files w' !! ERROR_SUMMARY <> Some EmptyString.
Proof.
  intros Hr w'.
  destruct (implementFeature_spec w) as (claudeMd & new & Hn & _ & _ & _ & H).
  destruct H as [[H _]|[[H _]|[[_ H]|H]]];
    try (rewrite Hr in H; discriminate).
  2:{ apply cut_short_ended in H. rewrite Hr in H. destruct H. }
  destruct H as (error & (sent & req & -> & Hm) & Hs & _
                 & before & l & Hl & Ht & Hc).
  exists error, sent, req, before, l.
  split; [exact Hn|]. split; [exact Hm|]. split; [exact Hl|].
  assert (E : errorSummary (logs w')
              = JS.join_lines
                  (map log_content (List.filter is_error before)
                   ++ ["Fatal error: " +:+ e_message error])).
  { unfold errorSummary. fold w' in Hl. rewrite Hl.
    rewrite List.filter_app, map_app. simpl.
    unfold is_error at 2. rewrite Ht. simpl. rewrite Hc. reflexivity. }
  fold w' in Hs. rewrite Hs, E. split; [reflexivity|].
  destruct (join_lines_snoc ("Fatal error: " +:+ e_message error)
              (map log_content (List.filter is_error before))) as [pre Hp].
  rewrite Hp. intros Habs. injection Habs as Habs.
  destruct pre; discriminate Habs.
Qed.

Lemma error_summary_ends_with_fatal_error_witness :
  let w' := snd (@implementFeature Sample.offline Sample.empty_world) in
  exists error sent req before l,
    requests w' = requests Sample.empty_world ++ sent ++ [req]
    /\ @messages_create Sample.offline
         (length (requests Sample.empty_world) + length sent) req = inl error
    /\ logs w' = before ++ [l]
    /\ files w' !! ERROR_SUMMARY
       = Some (JS.join_lines
                 (map log_content (List.filter is_error before)
                  ++ ["Fatal error: " +:+ e_message error]))
    /\ files w' !! ERROR_SUMMARY <> Some EmptyString.
Proof.
  apply (@error_summary_ends_with_fatal_error Sample.offline
           Sample.empty_world).
  vm_compute. reflexivity.
Defined.

(** The summary of the run in which the endpoint is down and
    [CLAUDE.md] is missing: the error of the read, then the fatal
    error. *)
Example error_summary_of_a_failed_run :
  files (snd (@implementFeature Sample.offline Sample.empty_world))
    !! ERROR_SUMMARY
  = Some ("Failed to read CLAUDE.md: Error: open CLAUDE.md" +:+ JS.nl
          +:+ "Fatal error: 503").
Proof. vm_compute. reflexivity. Qed.

(** X18: when its command exits with 0 within the default buffer, [glob]
    returns the lines of the standard output alone (the standard error is
    dropped), trimmed and without the blank ones, joined by line feeds:
    every entry is non-empty and holds no line feed, so that splitting
    the returned text gives the entries back; with no entry the text is
    empty. *)
Theorem glob_returns_clean_lines `{rt : Runtime} pattern w :
  let w0 := logged T_tool ("Glob pattern: " +:+ JS.str pattern) None w in
  let p := fst (sh (glob_command pattern) (files w0)) in
  exceeds DEFAULT_MAX_BUFFER (p_stdout p)
  || exceeds DEFAULT_MAX_BUFFER (p_stderr p) = false ->
  exit_code p = 0 ->
  exists entries w',
    glob pattern w = (Ok (JS.join_lines entries), w')
    /\ entries
       = List.filter JS.truthy (JS.split_lines (JS.trim (p_stdout p)))
    /\ Forall (fun e => JS.truthy e = true /\ no_newline e = true) entries
    /\ (entries <> [] -> JS.split_lines (JS.join_lines entries) = entries)
    /\ (entries = [] -> JS.join_lines entries = EmptyString).
Proof.
  cbv zeta. intros Hb Hx. destruct (glob_ok pattern w Hb Hx) as (w' & E).
  eexists _, w'. split; [exact E|]. split; [reflexivity|].
  assert (Hn : Forall (fun e => no_newline e = true)
                 (List.filter JS.truthy
                    (JS.split_lines (JS.trim (p_stdout
                       (fst (sh (glob_command pattern)
                               (files (logged T_tool
                                  ("Glob pattern: " +:+ JS.str pattern)
                                  None w))))))))).
  { apply Forall_filter_kept, split_lines_no_newline. }
  split; [|split].
  - apply Forall_and. split; [apply Forall_filter_true | exact Hn].
  - intros Hne. apply split_join; assumption.
  - intros ->. reflexivity.
Qed.

Lemma glob_returns_clean_lines_witness :
  exists entries w',
    @glob Sample.listed (Some "*") Sample.empty_world
    = (Ok (JS.join_lines entries), w')
    /\ entries = ["./a"; "./b"]
    /\ JS.split_lines (JS.join_lines entries) = entries.
Proof.
  destruct (@glob_returns_clean_lines Sample.listed (Some "*")
              Sample.empty_world) as (entries & w' & E & He & _ & Hs & _).
  - reflexivity.
  - reflexivity.
  - exists entries, w'. split; [exact E|].
    assert (H : entries = ["./a"; "./b"]) by (rewrite He; reflexivity).
    split; [exact H|]. apply Hs. rewrite H. discriminate.
Defined.
